(** * Rock-paper-scissors with hand gestures: the round state machine

    A shallow embedding of the game logic of [App] (React component), of the
    enumerations of [types.ts] and of [VisionService.detect], followed by
    the properties of the round engine.

    React state is a record; every [setX] call is a record update; the three
    [useEffect] hooks are functions run after a render when one of their
    dependencies changed; the two timers ([setInterval] of the countdown,
    [setTimeout] of the capture) are fields of the record, because the
    effects own them and their clean-up functions cancel them.

    A step of the running component is an event (a click on a button that
    is rendered, a timer that fires, a detection frame, a camera or model
    notification): its handler updates the state, then the effects run
    until nothing changes.  States are observed between steps.

    The random draw of the bot's move is a binary64 Number, in the standard
    library's specification of IEEE 754 arithmetic; its product with
    [moves.length] is rounded to nearest, ties to even, before the floor. *)

From Stdlib Require Import ZArith QArith Bool List String Lia SpecFloat.
Import ListNotations.
Local Open Scope string_scope.
Local Open Scope Z_scope.

(** ** types.ts *)

Inductive GameState : Type :=
| IDLE | COUNTDOWN | PLAYING | RESULT | GAME_OVER.

Inductive Gesture : Type :=
| NONE | ROCK | PAPER | SCISSORS.

Record Score : Type := mkScore { player : Z; bot : Z }.

(** The string literals ['player' | 'bot' | 'draw' | 'invalid'] of
    [GameResult.winner]; the field itself may also be [null]. *)
Inductive Winner : Type :=
| winner_player | winner_bot | winner_draw | winner_invalid.

Record GameResult : Type := mkGameResult {
  winner : option Winner;
  message : string
}.

Definition GameState_eqb (a b : GameState) : bool :=
  match a, b with
  | IDLE, IDLE | COUNTDOWN, COUNTDOWN | PLAYING, PLAYING
  | RESULT, RESULT | GAME_OVER, GAME_OVER => true
  | _, _ => false
  end.

Definition Gesture_eqb (a b : Gesture) : bool :=
  match a, b with
  | NONE, NONE | ROCK, ROCK | PAPER, PAPER | SCISSORS, SCISSORS => true
  | _, _ => false
  end.

(** ** App: constants and component state *)

Definition WINNING_SCORE : Z := 3.

Record App : Type := mkApp {
  gameState : GameState;
  score : Score;
  playerGesture : Gesture;
  botGesture : Gesture;
  gameResult : option GameResult;
  countdown : Z;
  isModelLoading : bool;
  permissionGranted : bool;
  error : option string;
  (* [setScore] always installs a fresh object, and the score effect
     depends on the identity of that object: the flag records that the
     object was replaced since the effect last ran. *)
  scoreReplaced : bool;
  (* the [setInterval] handle of the countdown effect is live *)
  countdownTimer : bool;
  (* the pending [setTimeout] of the playing effect, with the value of
     [playerGesture] that its closure captured *)
  captureTimer : option Gesture
}.

Definition initialApp : App :=
  {| gameState := IDLE;
     score := {| player := 0; bot := 0 |};
     playerGesture := NONE;
     botGesture := NONE;
     gameResult := None;
     countdown := 3;
     isModelLoading := true;
     permissionGranted := false;
     error := None;
     scoreReplaced := false;
     countdownTimer := false;
     captureTimer := None |}.

(** State setters. *)

Definition setGameState (v : GameState) (s : App) : App :=
  mkApp v (score s) (playerGesture s) (botGesture s) (gameResult s)
        (countdown s) (isModelLoading s) (permissionGranted s) (error s)
        (scoreReplaced s) (countdownTimer s) (captureTimer s).

Definition setScore (f : Score -> Score) (s : App) : App :=
  mkApp (gameState s) (f (score s)) (playerGesture s) (botGesture s)
        (gameResult s) (countdown s) (isModelLoading s) (permissionGranted s)
        (error s) true (countdownTimer s) (captureTimer s).

Definition setPlayerGesture (v : Gesture) (s : App) : App :=
  mkApp (gameState s) (score s) v (botGesture s) (gameResult s)
        (countdown s) (isModelLoading s) (permissionGranted s) (error s)
        (scoreReplaced s) (countdownTimer s) (captureTimer s).

Definition setBotGesture (v : Gesture) (s : App) : App :=
  mkApp (gameState s) (score s) (playerGesture s) v (gameResult s)
        (countdown s) (isModelLoading s) (permissionGranted s) (error s)
        (scoreReplaced s) (countdownTimer s) (captureTimer s).

Definition setGameResult (v : option GameResult) (s : App) : App :=
  mkApp (gameState s) (score s) (playerGesture s) (botGesture s) v
        (countdown s) (isModelLoading s) (permissionGranted s) (error s)
        (scoreReplaced s) (countdownTimer s) (captureTimer s).

Definition setCountdown (f : Z -> Z) (s : App) : App :=
  mkApp (gameState s) (score s) (playerGesture s) (botGesture s)
        (gameResult s) (f (countdown s)) (isModelLoading s)
        (permissionGranted s) (error s)
        (scoreReplaced s) (countdownTimer s) (captureTimer s).

Definition setIsModelLoading (v : bool) (s : App) : App :=
  mkApp (gameState s) (score s) (playerGesture s) (botGesture s)
        (gameResult s) (countdown s) v (permissionGranted s) (error s)
        (scoreReplaced s) (countdownTimer s) (captureTimer s).

Definition setPermissionGranted (v : bool) (s : App) : App :=
  mkApp (gameState s) (score s) (playerGesture s) (botGesture s)
        (gameResult s) (countdown s) (isModelLoading s) v (error s)
        (scoreReplaced s) (countdownTimer s) (captureTimer s).

Definition setError (v : option string) (s : App) : App :=
  mkApp (gameState s) (score s) (playerGesture s) (botGesture s)
        (gameResult s) (countdown s) (isModelLoading s) (permissionGranted s)
        v (scoreReplaced s) (countdownTimer s) (captureTimer s).

(** Timer handles and the dependency flag of the score effect. *)

Definition withScoreReplaced (v : bool) (s : App) : App :=
  mkApp (gameState s) (score s) (playerGesture s) (botGesture s)
        (gameResult s) (countdown s) (isModelLoading s) (permissionGranted s)
        (error s) v (countdownTimer s) (captureTimer s).

Definition withCountdownTimer (v : bool) (s : App) : App :=
  mkApp (gameState s) (score s) (playerGesture s) (botGesture s)
        (gameResult s) (countdown s) (isModelLoading s) (permissionGranted s)
        (error s) (scoreReplaced s) v (captureTimer s).

Definition withCaptureTimer (v : option Gesture) (s : App) : App :=
  mkApp (gameState s) (score s) (playerGesture s) (botGesture s)
        (gameResult s) (countdown s) (isModelLoading s) (permissionGranted s)
        (error s) (scoreReplaced s) (countdownTimer s) v.

Definition clearInterval : App -> App := withCountdownTimer false.
Definition clearTimeout : App -> App := withCaptureTimer None.

(** ** determineWinner *)

Definition determineWinner (p b : Gesture) : Winner :=
  if Gesture_eqb p NONE then winner_invalid
  else if Gesture_eqb p b then winner_draw
  else if (Gesture_eqb p ROCK && Gesture_eqb b SCISSORS)
          || (Gesture_eqb p PAPER && Gesture_eqb b ROCK)
          || (Gesture_eqb p SCISSORS && Gesture_eqb b PAPER)
       then winner_player
  else winner_bot.

(** ** The callback of the capture timeout (PLAYING effect)

    [p] is the [playerGesture] captured by the closure, [botMove] the
    element of [moves] that was drawn. *)

Definition moves : list Gesture := [ROCK; PAPER; SCISSORS].

(** [moves[i]]: [None] stands for JavaScript's [undefined]. *)
Definition moves_at (i : Z) : option Gesture :=
  if i <? 0 then None else nth_error moves (Z.to_nat i).

(** A JavaScript Number is an IEEE 754 binary64 value: 53 bits of
    precision, exponents below 1024.  Its operations are those of the
    standard library's specification of floating-point arithmetic, which
    rounds to nearest, ties to even. *)
Definition number : Type := spec_float.

Definition prec : Z := 53.
Definition emax : Z := 1024.

(** The Number denoted by an integer literal or by an integer-valued
    property such as [moves.length]. *)
Definition numberOfZ (z : Z) : number := binary_normalize prec emax z 0 false.

(** [x * y] and [x / y]. *)
Definition times (x y : number) : number := SFmul prec emax x y.
Definition divide (x y : number) : number := SFdiv prec emax x y.

(** The Number that the expression [n / d] evaluates to, for integer
    literals [n] and [d]. *)
Definition fraction (n d : Z) : number := divide (numberOfZ n) (numberOfZ d).

(** [Math.floor(x)], as the integer it denotes.  The floor of [NaN] or of an
    infinity is not an integer, and indexes nothing. *)
Definition Math_floor (x : number) : option Z :=
  match x with
  | S754_zero _ => Some 0
  | S754_finite s m e => Some (Z.shiftl (cond_Zopp s (Zpos m)) e)
  | S754_infinity _ | S754_nan => None
  end.

(** [moves[Math.floor(Math.random() * moves.length)]] for the draw [r]: the
    product is rounded to binary64 before the floor is taken. *)
Definition botMoveOf (r : number) : option Gesture :=
  match Math_floor (times r (numberOfZ (Z.of_nat (List.length moves)))) with
  | Some i => moves_at i
  | None => None
  end.

Definition captureCallback (p botMove : Gesture) (s : App) : App :=
  let s := setBotGesture botMove s in
  let s := setGameState RESULT s in
  let w := determineWinner p botMove in
  let '(s, msg) :=
    match w with
    | winner_invalid => (s, "No Hand Detected")
    | winner_player =>
        (setScore (fun sc => {| player := player sc + 1; bot := bot sc |}) s,
         "You Win!")
    | winner_bot =>
        (setScore (fun sc => {| player := player sc; bot := bot sc + 1 |}) s,
         "Bot Wins!")
    | winner_draw => (s, "Draw!")
    end in
  setGameResult (Some {| winner := Some w; message := msg |}) s.

(** ** The updater of the countdown interval (COUNTDOWN effect) *)

Definition countdownTick (s : App) : App :=
  if countdown s <=? 1
  then setCountdown (fun _ => 3) (setGameState PLAYING (clearInterval s))
  else setCountdown (fun prev => prev - 1) s.

(** ** resetGame and playRound *)

Definition resetGame (s : App) : App :=
  let s := setScore (fun _ => {| player := 0; bot := 0 |}) s in
  let s := setGameState IDLE s in
  let s := setPlayerGesture NONE s in
  let s := setBotGesture NONE s in
  setGameResult None s.

Definition playRound (s : App) : App :=
  let s := setGameResult None s in
  let s := setGameState COUNTDOWN s in
  setCountdown (fun _ => 3) s.

(** ** The three effects

    An effect runs after the render of [cur] when a dependency differs from
    the previous render [prev]; it first runs the clean-up that its previous
    run returned.  The updates it requests go to [acc]. *)

Definition countdownEffect (prev cur acc : App) : App :=
  if GameState_eqb (gameState prev) (gameState cur) then acc
  else
    let acc := match gameState prev with
               | COUNTDOWN => clearInterval acc
               | _ => acc
               end in
    match gameState cur with
    | COUNTDOWN =>
        withCountdownTimer true (setGameResult None (setBotGesture NONE acc))
    | _ => acc
    end.

Definition playingEffect (prev cur acc : App) : App :=
  if GameState_eqb (gameState prev) (gameState cur)
     && Gesture_eqb (playerGesture prev) (playerGesture cur) then acc
  else
    let acc := match gameState prev with
               | PLAYING => clearTimeout acc
               | _ => acc
               end in
    match gameState cur with
    | PLAYING => withCaptureTimer (Some (playerGesture cur)) acc
    | _ => acc
    end.

Definition scoreEffect (cur acc : App) : App :=
  if scoreReplaced cur then
    let acc := withScoreReplaced false acc in
    if (WINNING_SCORE <=? player (score cur))
       || (WINNING_SCORE <=? bot (score cur))
    then setGameState GAME_OVER acc
    else acc
  else acc.

Definition effectsPass (prev cur : App) : App :=
  scoreEffect cur (playingEffect prev cur (countdownEffect prev cur cur)).

(** A handler turned [prev] into [next]; React renders [next], runs the
    effects, renders what they requested and runs the effects again.  After
    the second pass nothing is left to do ([commit_stable] below). *)
Definition commit (prev next : App) : App :=
  effectsPass next (effectsPass prev next).

(** ** What the component renders

    The game buttons exist only when no error is shown and the model is
    loaded; each game state renders its own panel. *)

Definition gamePanel (s : App) : bool :=
  match error s with
  | Some _ => false
  | None => negb (isModelLoading s)
  end.

(** "Start Game", [onClick={playRound}], in the IDLE panel. *)
Definition startGameButton (s : App) : bool :=
  gamePanel s && GameState_eqb (gameState s) IDLE.

(** "Try Again" / "Next Round", [onClick={playRound}], in the RESULT panel,
    which needs a [gameResult]. *)
Definition nextRoundButton (s : App) : bool :=
  gamePanel s && GameState_eqb (gameState s) RESULT
  && match gameResult s with Some _ => true | None => false end.

(** "Play Again", [onClick={resetGame}], in the GAME_OVER panel. *)
Definition playAgainButton (s : App) : bool :=
  gamePanel s && GameState_eqb (gameState s) GAME_OVER.

(** "Retry Camera", [onClick={startCamera}], in the error panel. *)
Definition retryCameraButton (s : App) : bool :=
  match error s with Some _ => true | None => false end.


(** ** Events of the running component *)

Inductive Event : Type :=
| ClickStartGame
| ClickNextRound
| ClickPlayAgain
| ClickRetryCamera
| IntervalTick                 (* the 1000 ms interval fires *)
| TimeoutFire (r : number)     (* the 500 ms timeout fires; [r] is Math.random() *)
| DetectFrame (g : Gesture)    (* detectLoop: setPlayerGesture(result.gesture) *)
| ModelLoaded                  (* init: initialize() resolved *)
| InitError (msg : string)     (* init: initialize() rejected *)
| CameraReady                  (* onloadedmetadata *)
| CameraError (msg : string).  (* getUserMedia rejected *)

(** What [Math.random()] returns: a Number [r] with [0 <= r < 1]. *)
Definition inUnitInterval (r : number) : bool :=
  valid_binary prec emax r
  && SFleb (numberOfZ 0) r && SFltb r (numberOfZ 1).

(** The handler of an event, when the event can happen in [s]: a click
    needs its button, a timer callback needs its live timer. *)
Definition handler (e : Event) (s : App) : option App :=
  match e with
  | ClickStartGame =>
      if startGameButton s then Some (playRound s) else None
  | ClickNextRound =>
      if nextRoundButton s then Some (playRound s) else None
  | ClickPlayAgain =>
      if playAgainButton s then Some (resetGame s) else None
  | ClickRetryCamera =>
      if retryCameraButton s then Some (setError None s) else None
  | IntervalTick =>
      if countdownTimer s then Some (countdownTick s) else None
  | TimeoutFire r =>
      match captureTimer s, botMoveOf r with
      | Some p, Some botMove =>
          if inUnitInterval r
          then Some (captureCallback p botMove (clearTimeout s))
          else None
      | _, _ => None
      end
  | DetectFrame g =>
      if permissionGranted s && negb (isModelLoading s)
      then Some (setPlayerGesture g s) else None
  | ModelLoaded =>
      if isModelLoading s
      then Some (setError None (setIsModelLoading false s)) else None
  | InitError msg =>
      if isModelLoading s
      then Some (setIsModelLoading false
                  (setError (Some ("System error: " ++ msg)) s))
      else None
  | CameraReady => Some (setPermissionGranted true s)
  | CameraError msg =>
      Some (setPermissionGranted false (setError (Some msg) s))
  end.

Definition dispatch (e : Event) (s : App) : option App :=
  match handler e s with
  | Some next => Some (commit s next)
  | None => None
  end.

Fixpoint run (es : list Event) (s : App) : option App :=
  match es with
  | [] => Some s
  | e :: es' =>
      match dispatch e s with
      | Some s' => run es' s'
      | None => None
      end
  end.

Inductive reachable : App -> Prop :=
| reachable_initial : reachable initialApp
| reachable_step (s s' : App) (e : Event) :
    reachable s -> dispatch e s = Some s' -> reachable s'.

(** ** The invariant of the running component *)

Definition phaseInvariant (s : App) : Prop :=
  match gameState s with
  | IDLE =>
      score s = {| player := 0; bot := 0 |}
      /\ botGesture s = NONE /\ gameResult s = None
  | COUNTDOWN | PLAYING =>
      player (score s) < WINNING_SCORE /\ bot (score s) < WINNING_SCORE
      /\ botGesture s = NONE /\ gameResult s = None
  | RESULT =>
      player (score s) < WINNING_SCORE /\ bot (score s) < WINNING_SCORE
      /\ botGesture s <> NONE /\ gameResult s <> None
  | GAME_OVER =>
      (player (score s) = WINNING_SCORE \/ bot (score s) = WINNING_SCORE)
      /\ botGesture s <> NONE /\ gameResult s <> None
  end.

Definition timerInvariant (s : App) : Prop :=
  (countdownTimer s = true <-> gameState s = COUNTDOWN)
  /\ match captureTimer s with
     | Some p => gameState s = PLAYING /\ p = playerGesture s
     | None => gameState s <> PLAYING
     end.

Record Inv (s : App) : Prop := mkInv {
  inv_settled : scoreReplaced s = false;
  inv_player : 0 <= player (score s) <= WINNING_SCORE;
  inv_bot : 0 <= bot (score s) <= WINNING_SCORE;
  inv_countdown : 1 <= countdown s <= 3;
  inv_countdown_rest : gameState s <> COUNTDOWN -> countdown s = 3;
  inv_timers : timerInvariant s;
  inv_phase : phaseInvariant s
}.

(** The transition table: what an event requires of the game state and
    where it leads. *)
Definition phaseStep (e : Event) (s s' : App) : Prop :=
  match e with
  | ClickStartGame =>
      gameState s = IDLE /\ gameState s' = COUNTDOWN /\ countdown s' = 3
  | ClickNextRound =>
      gameState s = RESULT /\ gameState s' = COUNTDOWN /\ countdown s' = 3
  | ClickPlayAgain =>
      gameState s = GAME_OVER /\ gameState s' = IDLE /\ countdown s' = 3
  | IntervalTick =>
      gameState s = COUNTDOWN
      /\ if countdown s <=? 1
         then gameState s' = PLAYING /\ countdown s' = 3
         else gameState s' = COUNTDOWN /\ countdown s' = countdown s - 1
  | TimeoutFire _ =>
      gameState s = PLAYING
      /\ gameState s' =
         (if (WINNING_SCORE <=? player (score s'))
             || (WINNING_SCORE <=? bot (score s'))
          then GAME_OVER else RESULT)
      /\ countdown s' = 3
  | _ => gameState s' = gameState s /\ countdown s' = countdown s
  end.

(** ** The rule of section 4.2, as the specification words it *)

Inductive RoundOutcome : Type :=
| PlayerWin | BotWin | Draw | Invalid.

Definition outcomeOf (w : Winner) : RoundOutcome :=
  match w with
  | winner_player => PlayerWin
  | winner_bot => BotWin
  | winner_draw => Draw
  | winner_invalid => Invalid
  end.

Definition resolutionRule (p b : Gesture) : RoundOutcome * string :=
  match p, b with
  | NONE, _ => (Invalid, "No Hand Detected")
  | ROCK, ROCK | PAPER, PAPER | SCISSORS, SCISSORS => (Draw, "Draw!")
  | ROCK, SCISSORS | PAPER, ROCK | SCISSORS, PAPER => (PlayerWin, "You Win!")
  | _, _ => (BotWin, "Bot Wins!")
  end.

(** The score after a round with outcome [o]. *)
Definition scoreAfter (o : RoundOutcome) (sc : Score) : Score :=
  match o with
  | PlayerWin => {| player := player sc + 1; bot := bot sc |}
  | BotWin => {| player := player sc; bot := bot sc + 1 |}
  | Draw | Invalid => sc
  end.



(** ** VisionService.detect *)

Module VisionService.

(** One entry of [result.gestures[i]]. *)
Record Category : Type := mkCategory {
  categoryName : string;
  score : Q
}.

(** What [recognizeForVideo] does: it raises, or it returns a result whose
    [gestures] field lists, per hand, the ranked categories. *)
Inductive Recognition : Type :=
| Raises
| Recognized (gestures : list (list Category)).

Record HTMLVideoElement : Type := mkVideo { currentTime : Q }.

(** The recognizer, called with the video and [performance.now()]. *)
Definition GestureRecognizer : Type := HTMLVideoElement -> Q -> Recognition.

Record Detection : Type := mkDetection {
  gesture : Gesture;
  confidence : Q
}.

(** How the [try] block completes. *)
Inductive Completion : Type :=
| Returns (d : Detection)
| Throws
| FallsThrough.

Definition tryBlock (recognizer : GestureRecognizer)
           (video : HTMLVideoElement) (now : Q) : Completion :=
  match recognizer video now with
  | Raises => Throws
  | Recognized gestures =>
      match gestures with
      | [] => FallsThrough                    (* gestures.length > 0 fails *)
      | hand :: _ =>
          match hand with
          | [] => Throws   (* topGesture is undefined: reading its field raises *)
          | topGesture :: _ =>
              let name := categoryName topGesture in
              let sc := score topGesture in
              if String.eqb name "Closed_Fist"
              then Returns {| gesture := ROCK; confidence := sc |}
              else if String.eqb name "Open_Palm"
              then Returns {| gesture := PAPER; confidence := sc |}
              else if String.eqb name "Victory"
              then Returns {| gesture := SCISSORS; confidence := sc |}
              else Returns {| gesture := NONE; confidence := sc |}
          end
      end
  end.

Definition detect (gestureRecognizer : option GestureRecognizer)
           (video : HTMLVideoElement) (now : Q) : Detection :=
  match gestureRecognizer with
  | None => {| gesture := NONE; confidence := 0 |}
  | Some recognizer =>
      if Qeq_bool (currentTime video) 0
      then {| gesture := NONE; confidence := 0 |}
      else
        match tryBlock recognizer video now with
        | Returns d => d
        | Throws            (* caught: console.warn *)
        | FallsThrough => {| gesture := NONE; confidence := 0 |}
        end
  end.

(** The table of the category names. *)
Definition gestureOfCategory (name : string) : Gesture :=
  if String.eqb name "Closed_Fist" then ROCK
  else if String.eqb name "Open_Palm" then PAPER
  else if String.eqb name "Victory" then SCISSORS
  else NONE.

End VisionService.

(** ** Sample sessions *)

(** The model is loaded and no error is shown: the IDLE panel with its
    "Start Game" button is on screen. *)
Definition readyApp : App :=
  {| gameState := IDLE;
     score := {| player := 0; bot := 0 |};
     playerGesture := NONE;
     botGesture := NONE;
     gameResult := None;
     countdown := 3;
     isModelLoading := false;
     permissionGranted := true;
     error := None;
     scoreReplaced := false;
     countdownTimer := false;
     captureTimer := None |}.

Definition oneRound (r : number) : list Event :=
  [IntervalTick; IntervalTick; IntervalTick; TimeoutFire r].

(** Countdown running, one second left. *)
Definition lastSecondApp : App :=
  {| gameState := COUNTDOWN;
     score := {| player := 0; bot := 0 |};
     playerGesture := ROCK;
     botGesture := NONE;
     gameResult := None;
     countdown := 1;
     isModelLoading := false;
     permissionGranted := true;
     error := None;
     scoreReplaced := false;
     countdownTimer := true;
     captureTimer := None |}.

(** The capture window is open, the player shows a fist. *)
Definition playingApp : App :=
  {| gameState := PLAYING;
     score := {| player := 0; bot := 0 |};
     playerGesture := ROCK;
     botGesture := NONE;
     gameResult := None;
     countdown := 3;
     isModelLoading := false;
     permissionGranted := true;
     error := None;
     scoreReplaced := false;
     countdownTimer := false;
     captureTimer := Some ROCK |}.

(** The first round is over: the fist beat the bot's scissors. *)
Definition firstResultApp : App :=
  {| gameState := RESULT;
     score := {| player := 1; bot := 0 |};
     playerGesture := ROCK;
     botGesture := SCISSORS;
     gameResult :=
       Some {| winner := Some winner_player; message := "You Win!" |};
     countdown := 3;
     isModelLoading := false;
     permissionGranted := true;
     error := None;
     scoreReplaced := false;
     countdownTimer := false;
     captureTimer := None |}.

(** The player has won three rounds with a fist against scissors. *)
Definition gameOverApp : App :=
  {| gameState := GAME_OVER;
     score := {| player := 3; bot := 0 |};
     playerGesture := ROCK;
     botGesture := SCISSORS;
     gameResult :=
       Some {| winner := Some winner_player; message := "You Win!" |};
     countdown := 3;
     isModelLoading := false;
     permissionGranted := true;
     error := None;
     scoreReplaced := false;
     countdownTimer := false;
     captureTimer := None |}.

Definition toLastSecond : list Event :=
  [ModelLoaded; CameraReady; DetectFrame ROCK; ClickStartGame;
   IntervalTick; IntervalTick].

Definition toPlaying : list Event := toLastSecond ++ [IntervalTick].

Definition toGameOver : list Event :=
  toPlaying ++ [TimeoutFire (fraction 3 4)]
  ++ ClickNextRound :: oneRound (fraction 3 4)
  ++ ClickNextRound :: oneRound (fraction 3 4).

(** ** The game-state graph *)

(** The edges of the game-state graph. *)
Definition phaseEdges : list (GameState * GameState) :=
  [(IDLE, COUNTDOWN); (COUNTDOWN, PLAYING); (PLAYING, RESULT);
   (PLAYING, GAME_OVER); (RESULT, COUNTDOWN); (GAME_OVER, IDLE)].

(** ** More of what is rendered *)

(** The headline of the GAME_OVER panel. *)
Definition gameOverHeadline (s : App) : string :=
  if WINNING_SCORE <=? player (score s) then "VICTORY!" else "DEFEAT".

(** [gameResult.winner === 'invalid']: the RESULT panel then asks to hold
    the hand in front of the camera and labels its button "Try Again". *)
Definition isInvalidResult (res : GameResult) : bool :=
  match winner res with
  | Some winner_invalid => true
  | _ => false
  end.

(** The object stored by [setGameResult] for a captured gesture [p] and the
    bot's move [b]. *)
Definition resultOf (p b : Gesture) : GameResult :=
  {| winner := Some (determineWinner p b);
     message := snd (resolutionRule p b) |}.

(** What the result on screen says about the round that produced it. *)
Definition resultInvariant (s : App) : Prop :=
  match gameState s with
  | RESULT =>
      exists p, gameResult s = Some (resultOf p (botGesture s))
  | GAME_OVER =>
      exists p,
        gameResult s = Some (resultOf p (botGesture s))
        /\ match determineWinner p (botGesture s) with
           | winner_player =>
               player (score s) = WINNING_SCORE
               /\ bot (score s) < WINNING_SCORE
           | winner_bot =>
               bot (score s) = WINNING_SCORE
               /\ player (score s) < WINNING_SCORE
           | winner_draw | winner_invalid => False
           end
  | IDLE | COUNTDOWN | PLAYING => gameResult s = None
  end.

(** ** startCamera and the detection loop *)

(** The exception caught by [startCamera]: [err.name] and [err.message],
    either of which may be missing. *)
Record CameraFailure : Type := mkCameraFailure {
  err_name : option string;
  err_message : option string
}.

Definition nameIs (err : CameraFailure) (n : string) : bool :=
  match err_name err with
  | Some m => String.eqb m n
  | None => false
  end.

(** The text handed to [setError] in the [catch] block of [startCamera];
    [err.message || 'Unknown error'] also replaces an empty message. *)
Definition cameraErrorMessage (err : CameraFailure) : string :=
  if nameIs err "NotAllowedError" || nameIs err "PermissionDeniedError"
  then "Camera access denied. Please allow camera permissions in your browser settings to play."
  else if nameIs err "NotFoundError"
  then "No camera found. Please connect a camera device."
  else "Camera error: "
       ++ match err_message err with
          | Some m => if String.eqb m EmptyString then "Unknown error" else m
          | None => "Unknown error"
          end.

(** One turn of [detectLoop]: [video] is [videoRef.current] with its
    [readyState], when there is one. *)
Definition detectLoop
           (gestureRecognizer : option VisionService.GestureRecognizer)
           (video : option (VisionService.HTMLVideoElement * Z)) (now : Q)
           (s : App) : App :=
  match video with
  | Some (v, readyState) =>
      if readyState =? 4
      then setPlayerGesture
             (VisionService.gesture
                (VisionService.detect gestureRecognizer v now)) s
      else s
  | None => s
  end.

(** ** Scene3D: the two sprites and their textures *)

Module Scene3D.

Definition ASSETS (g : Gesture) : string :=
  match g with
  | ROCK => "https://raw.githubusercontent.com/Tarikul-Islam-Anik/Animated-Fluent-Emojis/master/Emojis/Hand%20gestures/Oncoming%20Fist.png"
  | PAPER => "https://raw.githubusercontent.com/Tarikul-Islam-Anik/Animated-Fluent-Emojis/master/Emojis/Hand%20gestures/Raised%20Hand.png"
  | SCISSORS => "https://raw.githubusercontent.com/Tarikul-Islam-Anik/Animated-Fluent-Emojis/master/Emojis/Hand%20gestures/Victory%20Hand.png"
  | NONE => "https://raw.githubusercontent.com/Tarikul-Islam-Anik/Animated-Fluent-Emojis/master/Emojis/Smilies/Thinking%20Face.png"
  end.

Definition fallbackMap (g : Gesture) : string :=
  match g with
  | ROCK => "🪨"
  | PAPER => "📄"
  | SCISSORS => "✂️"
  | NONE => "🤔"
  end.

Definition fallbackColor (g : Gesture) : string :=
  match g with
  | ROCK => "#475569"
  | PAPER => "#3b82f6"
  | SCISSORS => "#ef4444"
  | NONE => "#eab308"
  end.

(** A texture object; [id] is its identity (every texture the loader
    delivers and every fallback canvas is a new object). *)
Inductive Texture : Type :=
| Loaded (url : string) (id : nat)
| FallbackTexture (text color : string) (id : nat).

Definition textureId (t : Texture) : nat :=
  match t with
  | Loaded _ id => id
  | FallbackTexture _ _ id => id
  end.

(** [a !== b] on [sprite.material.map] and a cached texture. *)
Definition differs (a : option Texture) (b : Texture) : bool :=
  match a with
  | Some t => negb (Nat.eqb (textureId t) (textureId b))
  | None => true
  end.

(** [sprite.material.map], the material's version (bumped by
    [needsUpdate = true]) and [sprite.scale]. *)
Record Sprite : Type := mkSprite {
  map : option Texture;
  version : nat;
  scale : Z * Z * Z
}.

Inductive SpriteRef : Type := playerSpriteRef | botSpriteRef.

(** A call of [loader.load] that has not called back yet, with what its
    callbacks captured. *)
Record Load : Type := mkLoad {
  target : SpriteRef;
  url : string;
  gesture : Gesture
}.

Record Scene : Type := mkScene {
  playerSprite : Sprite;
  botSprite : Sprite;
  texturesRef : string -> option Texture;
  loading : list Load;
  nextId : nat;
  (* the [isCountingDown] that [animate] closed over when the mount effect
     ran; the effect has no dependencies and never runs again *)
  animate_isCountingDown : bool;
  (* the dependencies of the two gesture effects at their last run *)
  seenPlayerGesture : Gesture;
  seenBotGesture : Gesture
}.

Definition sprite (r : SpriteRef) (sc : Scene) : Sprite :=
  match r with
  | playerSpriteRef => playerSprite sc
  | botSpriteRef => botSprite sc
  end.

Definition withSprite (r : SpriteRef) (sp : Sprite) (sc : Scene) : Scene :=
  match r with
  | playerSpriteRef =>
      mkScene sp (botSprite sc) (texturesRef sc) (loading sc) (nextId sc)
              (animate_isCountingDown sc) (seenPlayerGesture sc)
              (seenBotGesture sc)
  | botSpriteRef =>
      mkScene (playerSprite sc) sp (texturesRef sc) (loading sc) (nextId sc)
              (animate_isCountingDown sc) (seenPlayerGesture sc)
              (seenBotGesture sc)
  end.

Definition withTexture (u : string) (t : Texture) (sc : Scene) : Scene :=
  mkScene (playerSprite sc) (botSprite sc)
          (fun v => if String.eqb v u then Some t else texturesRef sc v)
          (loading sc) (nextId sc)
          (animate_isCountingDown sc) (seenPlayerGesture sc)
          (seenBotGesture sc).

Definition withLoading (l : list Load) (sc : Scene) : Scene :=
  mkScene (playerSprite sc) (botSprite sc) (texturesRef sc) l (nextId sc)
          (animate_isCountingDown sc) (seenPlayerGesture sc)
          (seenBotGesture sc).

Definition withNextId (n : nat) (sc : Scene) : Scene :=
  mkScene (playerSprite sc) (botSprite sc) (texturesRef sc) (loading sc) n
          (animate_isCountingDown sc) (seenPlayerGesture sc)
          (seenBotGesture sc).

Definition withSeen (p b : Gesture) (sc : Scene) : Scene :=
  mkScene (playerSprite sc) (botSprite sc) (texturesRef sc) (loading sc)
          (nextId sc) (animate_isCountingDown sc) p b.

Definition setMap (t : Texture) (sp : Sprite) : Sprite :=
  mkSprite (Some t) (S (version sp)) (scale sp).

Definition setScale (x y z : Z) (sp : Sprite) : Sprite :=
  mkSprite (map sp) (version sp) (x, y, z).

(** [updateSprite(sprite, gesture)]: a cached texture is applied at once,
    otherwise a download starts. *)
Definition updateSprite (r : SpriteRef) (g : Gesture) (sc : Scene) : Scene :=
  let u := ASSETS g in
  match texturesRef sc u with
  | Some cached =>
      if differs (map (sprite r sc)) cached
      then withSprite r (setMap cached (sprite r sc)) sc
      else sc
  | None => withLoading (loading sc ++ [mkLoad r u g]) sc
  end.

(** The success callback of a download. *)
Definition onLoad (l : Load) (sc : Scene) : Scene :=
  let tex := Loaded (url l) (nextId sc) in
  let sc := withNextId (S (nextId sc)) sc in
  let sc := withTexture (url l) tex sc in
  withSprite (target l) (setMap tex (sprite (target l) sc)) sc.

(** The failure callback: a canvas with the emoji of the gesture. *)
Definition onError (l : Load) (sc : Scene) : Scene :=
  let fallbackTex :=
    FallbackTexture (fallbackMap (gesture l)) (fallbackColor (gesture l))
                    (nextId sc) in
  let sc := withNextId (S (nextId sc)) sc in
  let sc := withTexture (url l) fallbackTex sc in
  withSprite (target l) (setMap fallbackTex (sprite (target l) sc)) sc.

(** The part of [animate] that touches the sprites' scale (positions and
    rotations, computed with [Math.sin] and [Math.cos], are outside this
    embedding). *)
Definition animate (sc : Scene) : Scene :=
  if animate_isCountingDown sc
  then withSprite botSpriteRef (setScale 3 3 3 (botSprite sc))
         (withSprite playerSpriteRef (setScale 3 3 3 (playerSprite sc)) sc)
  else sc.

(** The effects on [playerGesture] and on [botGesture]. *)
Definition gestureEffect (r : SpriteRef) (g : Gesture) (sc : Scene) : Scene :=
  let sc := updateSprite r g sc in
  match g with
  | NONE => withSprite r (setScale 3 3 1 (sprite r sc)) sc
  | _ => withSprite r (setScale 4 4 1 (sprite r sc)) sc
  end.

(** The props of [<Scene3D>]. *)
Record Props : Type := mkProps {
  playerGestureProp : Gesture;
  botGestureProp : Gesture;
  isCountingDown : bool
}.

(** The first render: the mount effect creates the sprites, asks for the
    texture of NONE for both and starts [animate]; then the two gesture
    effects run for the first time. *)
Definition mount (props : Props) : Scene :=
  let blank := mkSprite None 0%nat (3, 3, 1) in
  let sc := mkScene blank blank (fun _ => None) [] 0%nat
                    (isCountingDown props)
                    (playerGestureProp props) (botGestureProp props) in
  let sc := updateSprite playerSpriteRef NONE sc in
  let sc := updateSprite botSpriteRef NONE sc in
  let sc := animate sc in
  let sc := gestureEffect playerSpriteRef (playerGestureProp props) sc in
  gestureEffect botSpriteRef (botGestureProp props) sc.

(** A later render: each gesture effect runs when its gesture changed. *)
Definition render (props : Props) (sc : Scene) : Scene :=
  let sc :=
    if Gesture_eqb (seenPlayerGesture sc) (playerGestureProp props) then sc
    else gestureEffect playerSpriteRef (playerGestureProp props)
           (withSeen (playerGestureProp props) (seenBotGesture sc) sc) in
  if Gesture_eqb (seenBotGesture sc) (botGestureProp props) then sc
  else gestureEffect botSpriteRef (botGestureProp props)
         (withSeen (seenPlayerGesture sc) (botGestureProp props) sc).

Fixpoint removeNth {A : Type} (i : nat) (l : list A) : list A :=
  match i, l with
  | _, [] => []
  | O, _ :: l' => l'
  | S i', x :: l' => x :: removeNth i' l'
  end.

(** What the texture machinery leaves alone. *)
Definition sameLook (a b : Scene) : Prop :=
  scale (playerSprite a) = scale (playerSprite b)
  /\ scale (botSprite a) = scale (botSprite b)
  /\ animate_isCountingDown a = animate_isCountingDown b
  /\ seenPlayerGesture a = seenPlayerGesture b
  /\ seenBotGesture a = seenBotGesture b.

(** The scale of [sprite.scale.set] in the gesture effects. *)
Definition scaleFor (g : Gesture) : Z * Z * Z :=
  match g with
  | NONE => (3, 3, 1)
  | _ => (4, 4, 1)
  end.

(** The sprites are dressed for the gestures the effects saw last. *)
Definition dressed (sc : Scene) : Prop :=
  scale (playerSprite sc) = scaleFor (seenPlayerGesture sc)
  /\ scale (botSprite sc) = scaleFor (seenBotGesture sc).

End Scene3D.

(** ** App and Scene3D together *)

(** What [App] passes to [<Scene3D>]. *)
Definition propsOf (s : App) : Scene3D.Props :=
  {| Scene3D.playerGestureProp := playerGesture s;
     Scene3D.botGestureProp := botGesture s;
     Scene3D.isCountingDown := GameState_eqb (gameState s) COUNTDOWN |}.

Record World : Type := mkWorld {
  app : App;
  scene : Scene3D.Scene
}.

Definition initialWorld : World :=
  {| app := initialApp; scene := Scene3D.mount (propsOf initialApp) |}.

Inductive WorldEvent : Type :=
| AppEvent (e : Event)
| AnimationFrame
| TextureLoaded (i : nat)     (* the i-th pending download succeeds *)
| TextureFailed (i : nat).    (* the i-th pending download fails *)

(** An event of [App] renders [Scene3D] once with the handler's state and
    once after each pass of the effects. *)
Definition worldStep (ev : WorldEvent) (w : World) : option World :=
  match ev with
  | AppEvent e =>
      match handler e (app w) with
      | Some next =>
          let first := effectsPass (app w) next in
          let second := effectsPass next first in
          Some {| app := second;
                  scene := Scene3D.render (propsOf second)
                             (Scene3D.render (propsOf first)
                                (Scene3D.render (propsOf next) (scene w))) |}
      | None => None
      end
  | AnimationFrame =>
      Some {| app := app w; scene := Scene3D.animate (scene w) |}
  | TextureLoaded i =>
      match nth_error (Scene3D.loading (scene w)) i with
      | Some l =>
          Some {| app := app w;
                  scene := Scene3D.onLoad l
                             (Scene3D.withLoading
                                (Scene3D.removeNth i
                                   (Scene3D.loading (scene w)))
                                (scene w)) |}
      | None => None
      end
  | TextureFailed i =>
      match nth_error (Scene3D.loading (scene w)) i with
      | Some l =>
          Some {| app := app w;
                  scene := Scene3D.onError l
                             (Scene3D.withLoading
                                (Scene3D.removeNth i
                                   (Scene3D.loading (scene w)))
                                (scene w)) |}
      | None => None
      end
  end.

Inductive reachableWorld : World -> Prop :=
| reachableWorld_initial : reachableWorld initialWorld
| reachableWorld_step (w w' : World) (ev : WorldEvent) :
    reachableWorld w -> worldStep ev w = Some w' -> reachableWorld w'.


Fixpoint runWorld (evs : list WorldEvent) (w : World) : option World :=
  match evs with
  | [] => Some w
  | ev :: evs' =>
      match worldStep ev w with
      | Some w' => runWorld evs' w'
      | None => None
      end
  end.

(** The first of the downloads started on mount has delivered the texture
    of NONE. *)
Definition firstTextureWorld : World :=
  match worldStep (TextureLoaded 0) initialWorld with
  | Some w => w
  | None => initialWorld
  end.

(** The scene and the component agree. *)
Definition sceneInvariant (w : World) : Prop :=
  Scene3D.animate_isCountingDown (scene w) = false
  /\ Scene3D.seenPlayerGesture (scene w) = playerGesture (app w)
  /\ Scene3D.seenBotGesture (scene w) = botGesture (app w)
  /\ Scene3D.dressed (scene w).

(** The countdown is running and the player shows a fist. *)
Definition countingWorld : World :=
  match runWorld [AppEvent ModelLoaded; AppEvent CameraReady;
                  AppEvent (DetectFrame ROCK); AppEvent ClickStartGame]
                 initialWorld with
  | Some w => w
  | None => initialWorld
  end.

(** * Properties *)

(** ** Equality tests *)

Lemma GameState_eqb_spec (a b : GameState) : GameState_eqb a b = true <-> a = b.
Proof. destruct a, b; simpl; split; congruence. Qed.

Lemma Gesture_eqb_spec (a b : Gesture) : Gesture_eqb a b = true <-> a = b.
Proof. destruct a, b; simpl; split; congruence. Qed.

Lemma GameState_eqb_refl (a : GameState) : GameState_eqb a a = true.
Proof. now destruct a. Qed.

Lemma Gesture_eqb_refl (a : Gesture) : Gesture_eqb a a = true.
Proof. now destruct a. Qed.

(** ** What a pass of the effects can touch *)

Ltac effects_cases prev cur :=
  unfold effectsPass, scoreEffect, playingEffect, countdownEffect;
  destruct (scoreReplaced cur) eqn:?;
  destruct ((WINNING_SCORE <=? player (score cur))
            || (WINNING_SCORE <=? bot (score cur))) eqn:?;
  destruct (GameState_eqb (gameState prev) (gameState cur)) eqn:?;
  destruct (Gesture_eqb (playerGesture prev) (playerGesture cur)) eqn:?;
  destruct (gameState prev) eqn:?; destruct (gameState cur) eqn:?;
  cbn -[Z.leb]; try reflexivity; try congruence.

Section EffectsPass.

Variables prev cur : App.

Lemma score_effectsPass : score (effectsPass prev cur) = score cur.
Proof.
  effects_cases prev cur.
Qed.

Lemma playerGesture_effectsPass :
  playerGesture (effectsPass prev cur) = playerGesture cur.
Proof.
  effects_cases prev cur.
Qed.

Lemma countdown_effectsPass :
  countdown (effectsPass prev cur) = countdown cur.
Proof.
  effects_cases prev cur.
Qed.

Lemma error_effectsPass : error (effectsPass prev cur) = error cur.
Proof.
  effects_cases prev cur.
Qed.

(** The score effect consumes the flag. *)
Lemma scoreReplaced_effectsPass :
  scoreReplaced (effectsPass prev cur) = false.
Proof.
  effects_cases prev cur.
Qed.

(** Only the score effect moves the game state, and only to GAME_OVER. *)
Lemma gameState_effectsPass :
  gameState (effectsPass prev cur) =
  if scoreReplaced cur
     && ((WINNING_SCORE <=? player (score cur))
         || (WINNING_SCORE <=? bot (score cur)))
  then GAME_OVER else gameState cur.
Proof.
  effects_cases prev cur.
Qed.

(** With unchanged dependencies no effect runs. *)
Lemma effectsPass_unchanged :
  gameState prev = gameState cur ->
  playerGesture prev = playerGesture cur ->
  scoreReplaced cur = false ->
  effectsPass prev cur = cur.
Proof.
  intros Hg Hp Hs.
  unfold effectsPass, scoreEffect, playingEffect, countdownEffect.
  rewrite Hg, Hp, Hs, GameState_eqb_refl, Gesture_eqb_refl. reflexivity.
Qed.

End EffectsPass.

(** Two passes are enough: a third one finds nothing to do. *)
Lemma commit_stable (prev next : App) :
  effectsPass (effectsPass prev next) (commit prev next) = commit prev next.
Proof.
  unfold commit. apply effectsPass_unchanged.
  - rewrite (gameState_effectsPass next), scoreReplaced_effectsPass.
    reflexivity.
  - now rewrite !playerGesture_effectsPass.
  - apply scoreReplaced_effectsPass.
Qed.

Lemma score_commit (prev next : App) : score (commit prev next) = score next.
Proof. unfold commit. now rewrite !score_effectsPass. Qed.

Lemma playerGesture_commit (prev next : App) :
  playerGesture (commit prev next) = playerGesture next.
Proof. unfold commit. now rewrite !playerGesture_effectsPass. Qed.

Lemma error_commit (prev next : App) : error (commit prev next) = error next.
Proof. unfold commit. now rewrite !error_effectsPass. Qed.

Lemma countdown_commit (prev next : App) :
  countdown (commit prev next) = countdown next.
Proof. unfold commit. now rewrite !countdown_effectsPass. Qed.

Lemma gameState_commit (prev next : App) :
  gameState (commit prev next) =
  if scoreReplaced next
     && ((WINNING_SCORE <=? player (score next))
         || (WINNING_SCORE <=? bot (score next)))
  then GAME_OVER else gameState next.
Proof.
  unfold commit.
  rewrite gameState_effectsPass, scoreReplaced_effectsPass. simpl.
  apply gameState_effectsPass.
Qed.

(** ** The invariant holds in every reachable state *)

Lemma Inv_initial : Inv initialApp.
Proof.
  constructor; unfold timerInvariant, phaseInvariant, WINNING_SCORE; simpl;
    try lia; try tauto; try (repeat split; congruence).
Qed.

Ltac break_inv H :=
  destruct H as [Hset Hpl Hbo Hcd Hcdr [Htmr Hcap] Hph];
  unfold phaseInvariant, WINNING_SCORE in *; simpl in *.

Ltac close_inv :=
  constructor; unfold timerInvariant, phaseInvariant, WINNING_SCORE in *;
  simpl in *;
  repeat match goal with
         | |- _ /\ _ => split
         | |- _ <-> _ => split; intro
         | |- _ <> _ => intro
         | H : _ /\ _ |- _ => destruct H
         | H : mkScore _ _ = mkScore _ _ |- _ => injection H as ? ?
         | H : Some _ = Some _ |- _ => injection H as ?
         end;
  subst; try congruence; try lia; try tauto;
  try solve [intuition (try congruence; try lia)].

(** States that contradict the timer part of the invariant. *)
Ltac prune :=
  try match goal with
      | H : _ = PLAYING /\ _ |- _ => destruct H as [? ?]; discriminate
      | H : PLAYING <> PLAYING |- _ => exfalso; apply H; reflexivity
      | H : true = true <-> _ |- _ =>
          let Ht := fresh in destruct H as [Ht _]; discriminate (Ht eq_refl)
      | H : false = true <-> _ |- _ =>
          let Ht := fresh in destruct H as [_ Ht]; discriminate (Ht eq_refl)
      end.

Ltac finish_step Hd :=
  prune; vm_compute in Hd; try discriminate Hd;
  injection Hd as <-; close_inv.

Ltac enum_score p :=
  match goal with
  | H : 0 <= p <= 3 |- _ =>
      assert (p = 0 \/ p = 1 \/ p = 2 \/ p = 3) as [-> | [-> | [-> | ->]]]
        by lia; clear H
  end.

Ltac enum_countdown c :=
  match goal with
  | H : 1 <= c <= 3 |- _ =>
      assert (c = 1 \/ c = 2 \/ c = 3) as [-> | [-> | ->]] by lia; clear H
  end.

Lemma botMoveOf_not_NONE (r : number) (g : Gesture) :
  botMoveOf r = Some g -> g <> NONE.
Proof.
  unfold botMoveOf. destruct (Math_floor _) as [i|]; [|discriminate].
  unfold moves_at. destruct (i <? 0); [discriminate|].
  destruct (Z.to_nat i) as [|[|[|[|n]]]]; simpl; congruence.
Qed.

Lemma Inv_step (s s' : App) (e : Event) :
  Inv s -> dispatch e s = Some s' -> Inv s'.
Proof.
  intros HI Hd.
  destruct s as [gs [p b] pg bg gr cd ml pgr er sr ct cap].
  break_inv HI. subst sr.
  destruct e.
  - (* ClickStartGame *)
    destruct er, ml, gs, pg, cap, ct; finish_step Hd.
  - (* ClickNextRound *)
    destruct er, ml, gs, gr, pg, cap, ct; finish_step Hd.
  - (* ClickPlayAgain *)
    destruct er, ml, gs, pg, cap, ct; finish_step Hd.
  - (* ClickRetryCamera *)
    destruct er, gs, pg, cap, ct; finish_step Hd.
  - (* IntervalTick *)
    enum_countdown cd; destruct gs, pg, cap, ct; finish_step Hd.
  - (* TimeoutFire *)
    unfold dispatch, handler in Hd. cbn [captureTimer] in Hd.
    destruct cap as [cp|]; [|discriminate Hd].
    destruct (botMoveOf r) as [bm|] eqn:Hbm; [|discriminate Hd].
    destruct (inUnitInterval r); [|discriminate Hd].
    apply botMoveOf_not_NONE in Hbm.
    destruct Hcap as [-> ->].
    enum_score p; enum_score b; destruct pg, bm, ct; try congruence;
      finish_step Hd.
  - (* DetectFrame *)
    destruct pgr, ml, gs, pg, g, cap, ct; finish_step Hd.
  - (* ModelLoaded *)
    destruct ml, gs, pg, cap, ct; finish_step Hd.
  - (* InitError *)
    destruct ml, gs, pg, cap, ct; finish_step Hd.
  - (* CameraReady *)
    destruct gs, pg, cap, ct; finish_step Hd.
  - (* CameraError *)
    destruct gs, pg, cap, ct; finish_step Hd.
Qed.

Lemma reachable_Inv (s : App) : reachable s -> Inv s.
Proof.
  induction 1 as [|s s' e _ IH Hd]; [apply Inv_initial|].
  exact (Inv_step s s' e IH Hd).
Qed.

Lemma run_reachable (es : list Event) :
  forall s s', reachable s -> run es s = Some s' -> reachable s'.
Proof.
  induction es as [|e es IH]; simpl; intros s s' Hs Hrun.
  - now injection Hrun as <-.
  - destruct (dispatch e s) as [s1|] eqn:Hd; [|discriminate].
    exact (IH s1 s' (reachable_step s s1 e Hs Hd) Hrun).
Qed.

Lemma readyApp_reachable : reachable readyApp.
Proof.
  apply (run_reachable [ModelLoaded; CameraReady] initialApp);
    [apply reachable_initial | reflexivity].
Qed.

Lemma lastSecondApp_reachable : reachable lastSecondApp.
Proof.
  apply (run_reachable toLastSecond initialApp);
    [apply reachable_initial | reflexivity].
Qed.

Lemma playingApp_reachable : reachable playingApp.
Proof.
  apply (run_reachable toPlaying initialApp);
    [apply reachable_initial | reflexivity].
Qed.

Lemma gameOverApp_reachable : reachable gameOverApp.
Proof.
  apply (run_reachable toGameOver initialApp);
    [apply reachable_initial | reflexivity].
Qed.

(** ** Handlers and their commits *)

Lemma dispatch_handler (e : Event) (s s' : App) :
  dispatch e s = Some s' ->
  exists next, handler e s = Some next /\ s' = commit s next.
Proof.
  unfold dispatch. destruct (handler e s) as [next|]; [|discriminate].
  intros H. injection H as <-. now exists next.
Qed.

Lemma score_captureCallback (p botMove : Gesture) (s : App) :
  score (captureCallback p botMove s)
  = scoreAfter (outcomeOf (determineWinner p botMove)) (score s).
Proof. destruct p, botMove, s as [? [? ?] ? ? ? ? ? ? ? ? ? ?]; reflexivity. Qed.

(** Which events touch the score, and how. *)
Lemma dispatch_score (e : Event) (s s' : App) :
  dispatch e s = Some s' ->
  match e with
  | TimeoutFire r =>
      exists p botMove,
        captureTimer s = Some p /\ botMoveOf r = Some botMove
        /\ score s' = scoreAfter (outcomeOf (determineWinner p botMove)) (score s)
  | ClickPlayAgain => score s' = {| player := 0; bot := 0 |}
  | _ => score s' = score s
  end.
Proof.
  intros Hd. apply dispatch_handler in Hd as (next & Hh & ->).
  rewrite score_commit.
  destruct e; simpl in Hh;
    try (match type of Hh with
         | (if ?c then _ else _) = _ =>
             match type of c with
             | bool => destruct c; [|discriminate]
             end
         end);
    try (injection Hh as <-; reflexivity).
  { injection Hh as <-. unfold countdownTick.
    now destruct (countdown s <=? 1). }
  destruct (captureTimer s) as [p|]; [|discriminate].
  destruct (botMoveOf r) as [bm|]; [|discriminate].
  destruct (inUnitInterval r); [|discriminate].
  injection Hh as <-. exists p, bm. rewrite score_captureCallback.
  auto.
Qed.

(** ** The transition table *)

Ltac finish_phase Hd :=
  prune; vm_compute in Hd; try discriminate Hd;
  injection Hd as <-; simpl; repeat split; auto;
  try match goal with
      | H : _ -> ?c = 3 |- ?c = 3 => apply H; discriminate
      end.

Lemma dispatch_phaseStep (s s' : App) (e : Event) :
  reachable s -> dispatch e s = Some s' -> phaseStep e s s'.
Proof.
  intros Hreach Hd. pose proof (reachable_Inv s Hreach) as HI.
  destruct s as [gs [p b] pg bg gr cd ml pgr er sr ct cap].
  break_inv HI. subst sr.
  destruct e; unfold phaseStep.
  - destruct er, ml, gs, pg, cap, ct; finish_phase Hd.
  - destruct er, ml, gs, gr, pg, cap, ct; finish_phase Hd.
  - destruct er, ml, gs, pg, cap, ct; finish_phase Hd.
  - destruct er, gs, pg, cap, ct; finish_phase Hd.
  - enum_countdown cd; destruct gs, pg, cap, ct; finish_phase Hd.
  - unfold dispatch, handler in Hd. cbn [captureTimer] in Hd.
    destruct cap as [cp|]; [|discriminate Hd].
    destruct (botMoveOf r) as [bm|] eqn:Hbm; [|discriminate Hd].
    destruct (inUnitInterval r); [|discriminate Hd].
    apply botMoveOf_not_NONE in Hbm.
    destruct Hcap as [-> ->].
    assert (cd = 3) as -> by (apply Hcdr; discriminate).
    enum_score p; enum_score b; destruct pg, bm, ct; try congruence;
      try lia; finish_phase Hd.
  - destruct pgr, ml, gs, pg, g, cap, ct; finish_phase Hd.
  - destruct ml, gs, pg, cap, ct; finish_phase Hd.
  - destruct ml, gs, pg, cap, ct; finish_phase Hd.
  - destruct gs, pg, cap, ct; finish_phase Hd.
  - destruct gs, pg, cap, ct; finish_phase Hd.
Qed.

(** ** The random draw *)

(** The draw is a binary64 value and so is its product with
    [moves.length]: what [Math.floor] sees is the product rounded to nearest,
    ties to even.  The lemmas below follow the rounding of
    [binary_round_aux] bit by bit. *)

Lemma digits2_pos_size (p : positive) : digits2_pos p = Pos.size p.
Proof. induction p; simpl; congruence. Qed.

Lemma digits2_bounds (p : positive) :
  2 ^ (Zpos (digits2_pos p) - 1) <= Zpos p < 2 ^ Zpos (digits2_pos p).
Proof.
  rewrite digits2_pos_size.
  pose proof (Pos.size_gt p) as Hgt.
  pose proof (Pos.size_le p) as Hle.
  split.
  - apply Pos2Z.pos_le_pos in Hle.
    rewrite Pos2Z.inj_pow in Hle.
    replace (Zpos (Pos.size p)) with (Z.succ (Zpos (Pos.size p) - 1)) in Hle by lia.
    rewrite Z.pow_succ_r in Hle by lia.
    lia.
  - apply Pos2Z.pos_lt_pos in Hgt.
    rewrite Pos2Z.inj_pow in Hgt. exact Hgt.
Qed.

Lemma shr_1_spec (R : shr_record) :
  0 <= shr_m R ->
  shr_m (shr_1 R) = shr_m R / 2 /\ shr_r (shr_1 R) = Z.testbit (shr_m R) 0.
Proof.
  destruct R as [m r s]. simpl shr_m at 1 3 4. intros Hm.
  rewrite <- Z.div2_div.
  destruct m as [|[p|p|]|p]; try lia; simpl; auto.
Qed.

Lemma iter_shr_1 (p : positive) :
  forall R : shr_record,
    0 <= shr_m R ->
    shr_m (iter_pos shr_1 p R) = shr_m R / 2 ^ Zpos p
    /\ shr_r (iter_pos shr_1 p R) = Z.testbit (shr_m R) (Zpos p - 1).
Proof.
  induction p as [p IH|p IH|]; intros R HR; simpl iter_pos.
  - destruct (shr_1_spec R HR) as [H1 _].
    assert (H1' : 0 <= shr_m (shr_1 R)).
    { rewrite H1. apply Z.div_pos; lia. }
    destruct (IH _ H1') as [H2 _].
    assert (H2' : 0 <= shr_m (iter_pos shr_1 p (shr_1 R))).
    { rewrite H2. apply Z.div_pos; [lia|]. apply Z.pow_pos_nonneg; lia. }
    destruct (IH _ H2') as [H3 H4].
    rewrite H3, H4, H2, H1. split.
    + assert (Hp : 0 < 2 ^ Zpos p) by (apply Z.pow_pos_nonneg; lia).
      rewrite !Z.div_div by lia.
      f_equal.
      replace (Zpos p~1) with (1 + Zpos p + Zpos p) by lia.
      rewrite !Z.pow_add_r by lia. change (2 ^ 1) with 2. lia.
    + rewrite Z.div_pow2_bits by lia.
      change (shr_m R / 2) with (shr_m R / 2 ^ 1).
      rewrite Z.div_pow2_bits by lia.
      f_equal. lia.
  - destruct (IH _ HR) as [H2 _].
    assert (H2' : 0 <= shr_m (iter_pos shr_1 p R)).
    { rewrite H2. apply Z.div_pos; [lia|]. apply Z.pow_pos_nonneg; lia. }
    destruct (IH _ H2') as [H3 H4].
    rewrite H3, H4, H2. split.
    + assert (Hp : 0 < 2 ^ Zpos p) by (apply Z.pow_pos_nonneg; lia).
      rewrite !Z.div_div by lia.
      f_equal.
      replace (Zpos p~0) with (Zpos p + Zpos p) by lia.
      rewrite Z.pow_add_r by lia. reflexivity.
    + rewrite Z.div_pow2_bits by lia.
      f_equal. lia.
  - destruct (shr_1_spec R HR) as [H1 H2].
    rewrite H1, H2. split; reflexivity.
Qed.

Lemma shr_exact (m e n : Z) :
  0 <= m ->
  exists R,
    shr (shr_record_of_loc m loc_Exact) e n = (R, e + Z.max n 0)
    /\ shr_m R = m / 2 ^ Z.max n 0
    /\ (0 < n -> shr_r R = Z.testbit m (n - 1)).
Proof.
  intros Hm. unfold shr, shr_record_of_loc.
  destruct n as [|p|p].
  - eexists; split; [rewrite Z.add_0_r; reflexivity|].
    split; [simpl; rewrite Z.div_1_r; reflexivity | lia].
  - destruct (iter_shr_1 p (Build_shr_record m false false) Hm) as [H1 H2].
    eexists; split; [rewrite Z.max_l by lia; reflexivity|].
    split; [rewrite Z.max_l by lia; exact H1 | intros _; exact H2].
  - eexists; split; [rewrite Z.max_r, Z.add_0_r by lia; reflexivity|].
    split; [rewrite Z.max_r by lia; simpl; rewrite Z.div_1_r; reflexivity | lia].
Qed.

Lemma round_nearest_even_cases (R : shr_record) :
  round_nearest_even (shr_m R) (loc_of_shr_record R) = shr_m R
  \/ (round_nearest_even (shr_m R) (loc_of_shr_record R) = shr_m R + 1
      /\ shr_r R = true).
Proof.
  destruct R as [m [|] [|]]; simpl; auto.
  destruct (Z.even m); auto.
Qed.

Lemma Zdigits2_le (m k : Z) :
  0 <= m -> 0 <= k -> m < 2 ^ k -> Zdigits2 m <= k.
Proof.
  intros Hm Hk Hlt. destruct m as [|p|p]; simpl; try lia.
  destruct (digits2_bounds p) as [Hlo _].
  destruct (Z_le_gt_dec (Zpos (digits2_pos p)) k) as [|Hgt]; [assumption|].
  assert (2 ^ k <= 2 ^ (Zpos (digits2_pos p) - 1))
    by (apply Z.pow_le_mono_r; lia).
  lia.
Qed.

(** The floor of a rounded positive value: the shifted mantissa, rounded up
    only when the first discarded bit is set, divided by the weight of a
    unit. *)
Lemma floor_binary_round_aux (M : positive) (E : Z) :
  let n := fexp prec emax (Zdigits2 (Zpos M) + E) - E in
  let q := Zpos M / 2 ^ n in
  0 < n -> E + n <= 0 -> q + 1 < 2 ^ (prec - (E + n)) ->
  exists m1,
    (m1 = q \/ (m1 = q + 1 /\ Z.testbit (Zpos M) (n - 1) = true))
    /\ Math_floor (binary_round_aux prec emax false (Zpos M) E loc_Exact)
       = Some (m1 / 2 ^ (- (E + n))).
Proof.
  intros n q Hn He Hq.
  unfold binary_round_aux, shr_fexp.
  fold n.
  destruct (shr_exact (Zpos M) E n) as (R & HR & HRm & HRr); [lia|].
  rewrite HR. rewrite Z.max_l in * by lia.
  fold q in HRm. specialize (HRr Hn).
  assert (Hq0 : 0 <= q) by (apply Z.div_pos; [lia | apply Z.pow_pos_nonneg; lia]).
  set (m1 := round_nearest_even (shr_m R) (loc_of_shr_record R)).
  assert (Hm1 : m1 = q \/ (m1 = q + 1 /\ Z.testbit (Zpos M) (n - 1) = true)).
  { destruct (round_nearest_even_cases R) as [H|[H Hr]]; fold m1 in H.
    - left. congruence.
    - right. split; congruence. }
  exists m1. split; [exact Hm1|].
  assert (Hm1' : 0 <= m1 < 2 ^ (prec - (E + n))) by lia.
  set (e' := E + n) in *.
  set (n2 := fexp prec emax (Zdigits2 m1 + e') - e').
  destruct (shr_exact m1 e' n2) as (R2 & HR2 & HR2m & _); [lia|].
  rewrite HR2.
  set (k := Z.max n2 0) in *.
  assert (Hk : 0 <= k /\ e' + k <= 0).
  { pose proof (Zdigits2_le m1 (prec - e')) as Hd.
    unfold n2, fexp, emin, prec, emax in *. lia. }
  assert (Hpk : 0 < 2 ^ k) by (apply Z.pow_pos_nonneg; lia).
  assert (Hfl : shr_m R2 / 2 ^ (- (e' + k)) = m1 / 2 ^ (- e')).
  { rewrite HR2m, Z.div_div by (try apply Z.pow_pos_nonneg; lia).
    rewrite <- Z.pow_add_r by lia. f_equal. f_equal. lia. }
  assert (Hnn : 0 <= shr_m R2) by (rewrite HR2m; apply Z.div_pos; lia).
  destruct (shr_m R2) as [|p|p] eqn:Em; [| |lia].
  - simpl. rewrite <- Hfl. rewrite Z.div_0_l; [reflexivity|].
    apply Z.pow_nonzero; lia.
  - replace (e' + k <=? emax - prec) with true
      by (symmetry; apply Z.leb_le; unfold emax, prec; lia).
    unfold Math_floor, cond_Zopp.
    rewrite Z.shiftl_div_pow2 by lia. rewrite Hfl. reflexivity.
Qed.

Lemma numberOfZ_0 : numberOfZ 0 = S754_zero false.
Proof. reflexivity. Qed.

Lemma numberOfZ_1 : numberOfZ 1 = S754_finite false 4503599627370496 (-52).
Proof. vm_compute. reflexivity. Qed.

Lemma numberOfZ_3 : numberOfZ 3 = S754_finite false 6755399441055744 (-51).
Proof. vm_compute. reflexivity. Qed.

(** A draw is zero or a positive binary64 value below one: at most 53
    significant bits, an exponent of at most -53, and a full mantissa unless
    the value is subnormal. *)
Lemma inUnitInterval_shape (r : number) :
  inUnitInterval r = true ->
  (exists s, r = S754_zero s)
  \/ exists m e,
       r = S754_finite false m e
       /\ Zpos m < 2 ^ 53 /\ -1074 <= e <= -53
       /\ (e = -1074 \/ 2 ^ 52 <= Zpos m).
Proof.
  unfold inUnitInterval. rewrite numberOfZ_0, numberOfZ_1.
  destruct r as [s|s| |s m e].
  - intros _. left. exists s. reflexivity.
  - destruct s; intros H; discriminate H.
  - intros H; discriminate H.
  - intros H. right. exists m, e.
    apply andb_true_iff in H as [H Hlt].
    apply andb_true_iff in H as [Hv Hle].
    destruct s; [discriminate Hle|]. split; [reflexivity|].
    unfold valid_binary, bounded, canonical_mantissa in Hv.
    apply andb_true_iff in Hv as [Hc _].
    apply Z.eqb_eq in Hc.
    destruct (digits2_bounds m) as [Hlo Hhi].
    set (d := Zpos (digits2_pos m)) in *.
    assert (Hd : 0 < d) by (unfold d; lia).
    unfold fexp, emin, prec, emax in Hc.
    assert (Hd53 : d <= 53) by lia.
    assert (Hm53 : Zpos m < 2 ^ 53).
    { assert (2 ^ d <= 2 ^ 53) by (apply Z.pow_le_mono_r; lia). lia. }
    assert (Hfull : e = -1074 \/ 2 ^ 52 <= Zpos m).
    { destruct (Z.eq_dec e (-1074)) as [|Hne]; [left; assumption|].
      right. assert (d = 53) by lia. subst d.
      replace 52 with (Zpos (digits2_pos m) - 1) by lia. exact Hlo. }
    assert (He : e <= -53).
    { unfold SFltb, SFcompare in Hlt.
      destruct (Z.compare_spec e (-52)) as [Heq|Hl|Hg];
        [|lia|discriminate Hlt].
      exfalso. subst e.
      destruct (Pos.compare_cont Eq m 4503599627370496) eqn:Ecmp;
        try discriminate Hlt.
      assert (Hlt' : (m < 4503599627370496)%positive) by exact Ecmp.
      apply Pos2Z.pos_lt_pos in Hlt'.
      destruct Hfull as [Hf|Hf]; [discriminate Hf|].
      change (2 ^ 52) with 4503599627370496 in Hf.
      clear - Hf Hlt'. lia. }
    repeat split; try assumption; lia.
Qed.

(** The rounding argument.  For a draw [m * 2^e] below one, the exact product
    with three has at most two bits more than a mantissa holds, so it is
    shifted by [j <= 2] bits.  The shifted product stays below [3 * 2^(-e-j)]
    after rounding: with one bit dropped there is room for the increment, and
    with two bits dropped the increment needs the first dropped bit set,
    which leaves room as well. *)
Lemma floor_times_three (m : positive) (e : Z) :
  Zpos m < 2 ^ 53 -> -1074 <= e <= -53 ->
  (e = -1074 \/ 2 ^ 52 <= Zpos m) ->
  exists i,
    Math_floor (times (S754_finite false m e) (numberOfZ 3)) = Some i
    /\ 0 <= i <= 2.
Proof.
  intros Hm He Hfull.
  rewrite numberOfZ_3. unfold times, SFmul. cbv [xorb].
  set (M := (m * 6755399441055744)%positive).
  assert (HM : Zpos M = Zpos m * (3 * 2 ^ 51)) by (unfold M; reflexivity).
  destruct (digits2_bounds M) as [Hlo Hhi].
  pose proof (floor_binary_round_aux M (e + -51)) as Hfl.
  cbv zeta in Hfl.
  change (Zdigits2 (Zpos M)) with (Zpos (digits2_pos M)) in Hfl.
  set (d := Zpos (digits2_pos M)) in *.
  (* the number of digits of the exact product *)
  assert (Hd106 : d <= 106).
  { destruct (Z_le_gt_dec d 106) as [|Hgt]; [assumption|].
    assert (2 ^ 106 <= 2 ^ (d - 1)) by (apply Z.pow_le_mono_r; lia).
    change (2 ^ 106) with (2 ^ 53 * (4 * 2 ^ 51)) in H. lia. }
  assert (Hd53 : 53 <= d).
  { destruct (Z_le_gt_dec 53 d) as [|Hgt]; [assumption|].
    assert (2 ^ d <= 2 ^ 52) by (apply Z.pow_le_mono_r; lia).
    change (2 ^ 52) with (2 * 2 ^ 51) in H. lia. }
  assert (Hd105 : 2 ^ 52 <= Zpos m -> 105 <= d).
  { intros Hn. destruct (Z_le_gt_dec 105 d) as [|Hgt]; [assumption|].
    assert (2 ^ d <= 2 ^ 104) by (apply Z.pow_le_mono_r; lia).
    change (2 ^ 104) with (2 ^ 52 * (2 * 2 ^ 51)) in H. lia. }
  set (n := fexp prec emax (d + (e + -51)) - (e + -51)) in *.
  assert (Hn : n = 51 \/ n = 52 \/ n = 53).
  { unfold n, fexp, emin, prec, emax. lia. }
  (* the weight of a unit of the result *)
  set (P := 2 ^ (- (e + -51 + n))) in *.
  assert (HP : 0 < P) by (apply Z.pow_pos_nonneg; lia).
  assert (HmP : Zpos m < P * 2 ^ (n - 51)).
  { unfold P. rewrite <- Z.pow_add_r by lia.
    assert (2 ^ 53 <= 2 ^ (- (e + -51 + n) + (n - 51)))
      by (apply Z.pow_le_mono_r; lia).
    lia. }
  assert (H53 : 2 ^ (prec - (e + -51 + n)) = 2 ^ 53 * P).
  { unfold P, prec. rewrite <- Z.pow_add_r by lia. f_equal; lia. }
  rewrite H53 in Hfl.
  assert (Hbound :
            forall m1,
              m1 = Zpos M / 2 ^ n
              \/ (m1 = Zpos M / 2 ^ n + 1 /\ Z.testbit (Zpos M) (n - 1) = true) ->
              0 <= m1 < 3 * P).
  { intros m1 Hm1.
    rewrite Z.testbit_true in Hm1 by lia.
    rewrite HM in Hm1.
    destruct Hn as [Hn|[Hn|Hn]]; rewrite Hn in Hm1, HmP;
      [ change (2 ^ (51 - 51)) with 1 in HmP;
        change (2 ^ (51 - 1)) with (2 ^ 50) in Hm1
      | change (2 ^ (52 - 51)) with 2 in HmP;
        change (2 ^ (52 - 1)) with (2 ^ 51) in Hm1
      | change (2 ^ (53 - 51)) with 4 in HmP;
        change (2 ^ (53 - 1)) with (2 ^ 52) in Hm1 ].
    - Z.div_mod_to_equations; lia.
    - Z.div_mod_to_equations; lia.
    - Z.div_mod_to_equations; lia. }
  destruct Hfl as (m1 & Hm1 & Hfloor).
  - lia.
  - lia.
  - assert (Hq : 0 <= Zpos M / 2 ^ n < 3 * P) by (apply Hbound; left; reflexivity).
    assert (1 < 2 ^ 53) by reflexivity. nia.
  - exists (m1 / P). split; [exact Hfloor|].
    specialize (Hbound m1 Hm1).
    split; [apply Z.div_pos; lia|].
    assert (m1 / P < 3) by (apply Z.div_lt_upper_bound; lia).
    lia.
Qed.

Lemma moves_at_in_range (i : Z) :
  0 <= i <= 2 -> exists g, moves_at i = Some g /\ In g moves /\ g <> NONE.
Proof.
  intros Hi.
  assert (H : i = 0 \/ i = 1 \/ i = 2) by lia.
  destruct H as [-> | [-> | ->]]; eexists; (split; [reflexivity|]);
    (split; [simpl; tauto | discriminate]).
Qed.

(** Every draw selects one of the three moves. *)
Lemma botMoveOf_total (r : number) :
  inUnitInterval r = true ->
  exists g, botMoveOf r = Some g /\ In g moves /\ g <> NONE.
Proof.
  intros Hr. unfold botMoveOf.
  change (Z.of_nat (List.length moves)) with 3.
  destruct (inUnitInterval_shape r Hr) as [[s Es]|(m & e & Em & Hm & He & Hf)];
    subst r.
  - exists ROCK. rewrite numberOfZ_3. destruct s; simpl; intuition discriminate.
  - destruct (floor_times_three m e Hm He Hf) as (i & Hi & Hrange).
    rewrite Hi. apply moves_at_in_range. exact Hrange.
Qed.

(** Products that rounding moves: the Number [1 / 3] lies below one third
    and its product with 3 rounds up to 1, which selects PAPER; [2 / 3]
    times 3 rounds up to 2; the largest Number below 1 times 3 rounds to the
    largest Number below 3, not to 3. *)
Example botMoveOf_rounded_products :
  fraction 1 3 = S754_finite false 6004799503160661 (-54)
  /\ times (fraction 1 3) (numberOfZ 3) = numberOfZ 1
  /\ botMoveOf (fraction 1 3) = Some PAPER
  /\ times (fraction 2 3) (numberOfZ 3) = numberOfZ 2
  /\ botMoveOf (fraction 2 3) = Some SCISSORS
  /\ inUnitInterval (S754_finite false 9007199254740991 (-53)) = true
  /\ times (S754_finite false 9007199254740991 (-53)) (numberOfZ 3)
     = S754_finite false 6755399441055743 (-51)
  /\ botMoveOf (S754_finite false 9007199254740991 (-53)) = Some SCISSORS
  /\ inUnitInterval (numberOfZ 1) = false.
Proof. vm_compute. repeat split. Qed.

Lemma botMoveOf_in_moves (r : number) (g : Gesture) :
  botMoveOf r = Some g -> In g moves.
Proof.
  unfold botMoveOf. destruct (Math_floor _) as [i|]; [|discriminate].
  unfold moves_at. destruct (i <? 0); [discriminate|].
  intros H. apply nth_error_In in H. exact H.
Qed.

(** ** When an event can happen *)

Lemma click_start_enabled (s : App) :
  startGameButton s = true ->
  dispatch ClickStartGame s = Some (commit s (playRound s)).
Proof. intros H. unfold dispatch, handler. now rewrite H. Qed.

Lemma tick_enabled (s : App) :
  countdownTimer s = true ->
  dispatch IntervalTick s = Some (commit s (countdownTick s)).
Proof. intros H. unfold dispatch, handler. now rewrite H. Qed.

Lemma tick_disabled (s : App) :
  countdownTimer s = false -> dispatch IntervalTick s = None.
Proof. intros H. unfold dispatch, handler. now rewrite H. Qed.

Lemma timeout_enabled (s : App) (r : number) (p botMove : Gesture) :
  captureTimer s = Some p -> botMoveOf r = Some botMove ->
  inUnitInterval r = true ->
  dispatch (TimeoutFire r) s
  = Some (commit s (captureCallback p botMove (clearTimeout s))).
Proof. intros H1 H2 H3. unfold dispatch, handler. now rewrite H1, H2, H3. Qed.

Lemma timeout_disabled (s : App) (r : number) :
  captureTimer s = None -> dispatch (TimeoutFire r) s = None.
Proof. intros H. unfold dispatch, handler. now rewrite H. Qed.

(** The timers follow the game state. *)
Lemma reachable_timers (s : App) :
  reachable s ->
  countdownTimer s = GameState_eqb (gameState s) COUNTDOWN
  /\ captureTimer s =
     if GameState_eqb (gameState s) PLAYING
     then Some (playerGesture s) else None.
Proof.
  intros Hreach. destruct (reachable_Inv s Hreach) as [_ _ _ _ _ [Ht Hc] _].
  split.
  - destruct (countdownTimer s), (gameState s); simpl; auto;
      try (destruct Ht as [Ht _]; discriminate (Ht eq_refl));
      try (destruct Ht as [_ Ht]; discriminate (Ht eq_refl)).
  - destruct (captureTimer s) as [p|].
    + destruct Hc as [-> ->]. reflexivity.
    + destruct (gameState s); simpl; congruence.
Qed.

(** ** What the effects leave alone after a capture *)

Lemma result_effectsPass (prev cur : App) :
  gameState cur <> COUNTDOWN ->
  botGesture (effectsPass prev cur) = botGesture cur
  /\ gameResult (effectsPass prev cur) = gameResult cur.
Proof.
  intros Hne.
  unfold effectsPass, scoreEffect, playingEffect, countdownEffect.
  destruct (GameState_eqb (gameState prev) (gameState cur)),
    (Gesture_eqb (playerGesture prev) (playerGesture cur)),
    (scoreReplaced cur),
    ((WINNING_SCORE <=? player (score cur))
     || (WINNING_SCORE <=? bot (score cur))),
    (gameState prev), (gameState cur); cbn -[Z.leb]; auto; congruence.
Qed.

Lemma result_commit (prev next : App) :
  gameState next <> COUNTDOWN ->
  botGesture (commit prev next) = botGesture next
  /\ gameResult (commit prev next) = gameResult next.
Proof.
  intros Hne. unfold commit.
  destruct (result_effectsPass prev next Hne) as [<- <-].
  apply result_effectsPass.
  rewrite gameState_effectsPass.
  destruct (_ && _); [discriminate | exact Hne].
Qed.

Lemma captureCallback_fields (p botMove : Gesture) (s : App) :
  gameState (captureCallback p botMove s) = RESULT
  /\ botGesture (captureCallback p botMove s) = botMove
  /\ playerGesture (captureCallback p botMove s) = playerGesture s
  /\ gameResult (captureCallback p botMove s) =
     Some {| winner := Some (determineWinner p botMove);
             message := snd (resolutionRule p botMove) |}.
Proof. destruct p, botMove; cbn; auto. Qed.

(** In PLAYING the capture timeout is armed with the current gesture, and
    any draw of the unit interval lets it fire. *)
Lemma capture_enabled (s : App) (r : number) :
  reachable s -> gameState s = PLAYING -> inUnitInterval r = true ->
  exists botMove,
    botMoveOf r = Some botMove
    /\ captureTimer s = Some (playerGesture s)
    /\ dispatch (TimeoutFire r) s
       = Some (commit s (captureCallback (playerGesture s) botMove
                                         (clearTimeout s))).
Proof.
  intros Hreach Hplaying Hr.
  destruct (botMoveOf_total r Hr) as (botMove & Hbm & _).
  destruct (reachable_timers s Hreach) as [_ Hcap].
  rewrite Hplaying in Hcap. simpl in Hcap.
  exists botMove. split; [exact Hbm|]. split; [exact Hcap|].
  now apply timeout_enabled.
Qed.

(** ** Facts about reachable states *)

Lemma reachable_idle_score (s : App) :
  reachable s -> gameState s = IDLE -> score s = {| player := 0; bot := 0 |}.
Proof.
  intros Hreach Hg. destruct (reachable_Inv s Hreach) as [_ _ _ _ _ _ Hph].
  unfold phaseInvariant in Hph. rewrite Hg in Hph. tauto.
Qed.

Lemma startGameButton_idle (s : App) :
  startGameButton s = true -> gameState s = IDLE.
Proof.
  unfold startGameButton. rewrite andb_true_iff. intros [_ H].
  now apply GameState_eqb_spec.
Qed.

Lemma reachable_game_over_iff (s : App) :
  reachable s ->
  (WINNING_SCORE <= player (score s) \/ WINNING_SCORE <= bot (score s))
  <-> gameState s = GAME_OVER.
Proof.
  intros Hreach. destruct (reachable_Inv s Hreach) as [_ _ _ _ _ _ Hph].
  unfold phaseInvariant, WINNING_SCORE in *.
  destruct (gameState s); split; intros H; try discriminate; try reflexivity;
    try (destruct Hph as [Hsc _]; rewrite Hsc in H; simpl in H; lia);
    lia.
Qed.

Lemma playRound_fields (t : App) :
  gameState (playRound t) = COUNTDOWN
  /\ countdown (playRound t) = 3
  /\ gameResult (playRound t) = None
  /\ score (playRound t) = score t
  /\ scoreReplaced (playRound t) = scoreReplaced t.
Proof. now destruct t. Qed.

(** ** C1: winner resolution *)

(** C1. For each of the 16 gesture pairs, [determineWinner] and the message
    chosen by the capture callback follow the resolution rule: invalid with
    "No Hand Detected" when the player's gesture is NONE, else draw with
    "Draw!" on equal gestures, else player with "You Win!" on
    (ROCK,SCISSORS), (PAPER,ROCK), (SCISSORS,PAPER), else bot with
    "Bot Wins!"; the outcome is invalid exactly when the player's gesture
    is NONE. *)
Theorem determineWinner_follows_rule (p b : Gesture) (s : App) :
  outcomeOf (determineWinner p b) = fst (resolutionRule p b)
  /\ gameResult (captureCallback p b s)
     = Some {| winner := Some (determineWinner p b);
               message := snd (resolutionRule p b) |}
  /\ (outcomeOf (determineWinner p b) = Invalid <-> p = NONE).
Proof.
  destruct p, b; cbn; repeat split; intros; congruence.
Qed.

(** ** C2: game over *)

(** From GAME_OVER a step other than the "Play Again" click keeps the
    state and the score. *)
Lemma game_over_step (s s' : App) (e : Event) :
  reachable s -> gameState s = GAME_OVER -> dispatch e s = Some s' ->
  e = ClickPlayAgain \/ (gameState s' = GAME_OVER /\ score s' = score s).
Proof.
  intros Hreach Hover Hd.
  pose proof (dispatch_phaseStep s s' e Hreach Hd) as Hstep.
  pose proof (dispatch_score e s s' Hd) as Hsc.
  destruct e; simpl in Hstep, Hsc;
    try (destruct Hstep as [Hg _]; congruence);
    try (left; reflexivity);
    right; destruct Hstep as [Hg _]; split; congruence.
Qed.

Lemma game_over_rejects_start (s : App) :
  gameState s = GAME_OVER ->
  dispatch ClickStartGame s = None /\ dispatch ClickNextRound s = None.
Proof.
  intros Hover.
  unfold dispatch, handler, startGameButton, nextRoundButton.
  rewrite Hover. simpl. rewrite !andb_false_r. split; reflexivity.
Qed.

(** The same for any sequence of events without that click. *)
Lemma game_over_run (es : list Event) :
  forall s t,
    reachable s -> gameState s = GAME_OVER ->
    ~ In ClickPlayAgain es -> run es s = Some t ->
    gameState t = GAME_OVER /\ score t = score s.
Proof.
  induction es as [|e es IH]; simpl; intros s t Hreach Hover Hno Hrun.
  - injection Hrun as <-. auto.
  - destruct (dispatch e s) as [s1|] eqn:Hd; [|discriminate].
    destruct (game_over_step s s1 e Hreach Hover Hd) as [-> | [Hg Hsc]];
      [exfalso; apply Hno; left; reflexivity|].
    destruct (IH s1 t (reachable_step s s1 e Hreach Hd) Hg) as [Hg' Hsc'];
      [intros Hin; apply Hno; right; exact Hin | exact Hrun |].
    split; congruence.
Qed.

(** C2. In reachable states a score component has reached the winning score
    exactly when the game state is GAME_OVER, so the step that brings a
    score to 3 lands in GAME_OVER.  From GAME_OVER every event other than
    the "Play Again" click, which resets, keeps GAME_OVER and the score, and
    so does every sequence of events without that click; the two clicks that
    start a round are rejected in GAME_OVER, before and after any such
    sequence.  The reset leaves GAME_OVER for IDLE. *)
Theorem game_over_until_reset (s s' : App) (e : Event)
        (Hreach : reachable s) (Hd : dispatch e s = Some s') :
  ((WINNING_SCORE <= player (score s) \/ WINNING_SCORE <= bot (score s))
   <-> gameState s = GAME_OVER)
  /\ (WINNING_SCORE <= player (score s') \/ WINNING_SCORE <= bot (score s')
      -> gameState s' = GAME_OVER)
  /\ (gameState s = GAME_OVER ->
      startGameButton s = false /\ nextRoundButton s = false
      /\ dispatch ClickStartGame s = None
      /\ dispatch ClickNextRound s = None
      /\ e <> ClickStartGame /\ e <> ClickNextRound
      /\ (e = ClickPlayAgain
          \/ (gameState s' = GAME_OVER /\ score s' = score s))
      /\ (e = ClickPlayAgain -> gameState s' = IDLE)
      /\ (forall es t,
            ~ In ClickPlayAgain es -> run es s = Some t ->
            gameState t = GAME_OVER /\ score t = score s
            /\ dispatch ClickStartGame t = None
            /\ dispatch ClickNextRound t = None)).
Proof.
  pose proof (reachable_step s s' e Hreach Hd) as Hreach'.
  split; [now apply reachable_game_over_iff|].
  split; [now apply reachable_game_over_iff|].
  intros Hover.
  pose proof (dispatch_phaseStep s s' e Hreach Hd) as Hstep.
  destruct (game_over_rejects_start s Hover) as [Hstart Hnext].
  split; [unfold startGameButton; rewrite Hover; apply andb_false_r|].
  split; [unfold nextRoundButton; rewrite Hover, andb_false_r; reflexivity|].
  split; [exact Hstart|]. split; [exact Hnext|].
  split; [intros ->; congruence|].
  split; [intros ->; congruence|].
  split; [exact (game_over_step s s' e Hreach Hover Hd)|].
  split; [intros ->; simpl in Hstep; tauto|].
  intros es t Hno Hrun.
  destruct (game_over_run es s t Hreach Hover Hno Hrun) as [Hg Hsc].
  destruct (game_over_rejects_start t Hg) as [Hstart' Hnext'].
  auto.
Qed.

(** After three wins a detection frame changes neither the state nor the
    score. *)
Lemma game_over_until_reset_witness :
  reachable gameOverApp
  /\ dispatch (DetectFrame PAPER) gameOverApp
     = Some (setPlayerGesture PAPER gameOverApp)
  /\ gameState (setPlayerGesture PAPER gameOverApp) = GAME_OVER
  /\ score (setPlayerGesture PAPER gameOverApp) = score gameOverApp.
Proof.
  split; [exact gameOverApp_reachable|]. split; [reflexivity|].
  destruct (game_over_until_reset gameOverApp _ (DetectFrame PAPER)
              gameOverApp_reachable eq_refl) as (_ & _ & H).
  destruct (H eq_refl) as (_ & _ & _ & _ & _ & _ & [He | Hkeep] & _).
  - discriminate He.
  - exact Hkeep.
Defined.

(** ** C3: the score *)

(** C3. A round resolution changes the score only on a player or bot win,
    then by exactly one point for the winner; draws and invalid rounds leave
    it alone.  Every event other than the reset click leaves both
    components where they were or higher, only the reset click sets them
    back to zero, and both are non-negative in every reachable state. *)
Theorem score_frame (s s' : App) (e : Event)
        (Hreach : reachable s) (Hd : dispatch e s = Some s') :
  0 <= player (score s) /\ 0 <= bot (score s)
  /\ match e with
     | TimeoutFire r =>
         exists botMove,
           botMoveOf r = Some botMove
           /\ score s' =
              match determineWinner (playerGesture s) botMove with
              | winner_player =>
                  {| player := player (score s) + 1; bot := bot (score s) |}
              | winner_bot =>
                  {| player := player (score s); bot := bot (score s) + 1 |}
              | winner_draw | winner_invalid => score s
              end
     | ClickPlayAgain => score s' = {| player := 0; bot := 0 |}
     | _ => score s' = score s
     end
  /\ (e <> ClickPlayAgain ->
      player (score s) <= player (score s')
      /\ bot (score s) <= bot (score s')).
Proof.
  pose proof (reachable_Inv s Hreach) as HI.
  pose proof (dispatch_score e s s' Hd) as Hs.
  destruct HI as [_ Hpl Hbo _ _ [_ Hcap] _].
  split; [lia|]. split; [lia|]. split.
  - destruct e; try exact Hs.
    destruct Hs as (p & bm & Hp & Hbm & Hs).
    rewrite Hp in Hcap. destruct Hcap as [_ ->].
    exists bm. split; [exact Hbm|]. rewrite Hs.
    now destruct (determineWinner (playerGesture s) bm).
  - intros Hne. destruct e; try congruence; try (rewrite Hs; lia).
    destruct Hs as (p & bm & _ & _ & ->).
    destruct (determineWinner p bm); simpl; lia.
Qed.

(** A fist against scissors at the end of the capture window. *)
Lemma score_frame_witness :
  reachable playingApp
  /\ dispatch (TimeoutFire (fraction 3 4)) playingApp = Some firstResultApp
  /\ score firstResultApp
     = {| player := player (score playingApp) + 1;
          bot := bot (score playingApp) |}.
Proof.
  split; [exact playingApp_reachable|].
  split; [reflexivity|].
  destruct (score_frame playingApp firstResultApp (TimeoutFire (fraction 3 4))
              playingApp_reachable eq_refl) as (_ & _ & H & _).
  destruct H as (bm & Hbm & Hs).
  injection Hbm as <-. exact Hs.
Defined.

(** ** C4: the countdown *)




(** ** C5: a normal round *)

(** C5. From the IDLE panel a round runs IDLE, COUNTDOWN showing 3, 2, 1,
    PLAYING, RESULT: the start click, exactly three ticks of the interval
    (a fourth cannot fire, the interval is cleared) and exactly one firing
    of the capture timeout (it is not armed before PLAYING and not after
    RESULT).  In any reachable COUNTDOWN state [c] the tick is enabled; with
    the countdown above 1 it takes one off and stays in COUNTDOWN, with the
    countdown at 1 it moves to PLAYING and sets the countdown to 3. *)
Theorem normal_round (s c : App) (r : number)
        (Hs : reachable s) (Hbutton : startGameButton s = true)
        (Hr : inUnitInterval r = true)
        (Hc : reachable c) (Hcount : gameState c = COUNTDOWN) :
  (exists s1 s2 s3 s4 s5,
      gameState s = IDLE
      /\ dispatch IntervalTick s = None
      /\ dispatch (TimeoutFire r) s = None
      /\ dispatch ClickStartGame s = Some s1
      /\ (gameState s1, countdown s1) = (COUNTDOWN, 3)
      /\ dispatch (TimeoutFire r) s1 = None
      /\ dispatch IntervalTick s1 = Some s2
      /\ (gameState s2, countdown s2) = (COUNTDOWN, 2)
      /\ dispatch (TimeoutFire r) s2 = None
      /\ dispatch IntervalTick s2 = Some s3
      /\ (gameState s3, countdown s3) = (COUNTDOWN, 1)
      /\ dispatch (TimeoutFire r) s3 = None
      /\ dispatch IntervalTick s3 = Some s4
      /\ (gameState s4, countdown s4) = (PLAYING, 3)
      /\ dispatch IntervalTick s4 = None
      /\ dispatch (TimeoutFire r) s4 = Some s5
      /\ gameState s5 = RESULT
      /\ dispatch IntervalTick s5 = None
      /\ dispatch (TimeoutFire r) s5 = None)
  /\ (exists c',
         dispatch IntervalTick c = Some c'
         /\ (1 < countdown c ->
             gameState c' = COUNTDOWN /\ countdown c' = countdown c - 1)
         /\ (countdown c = 1 ->
             gameState c' = PLAYING /\ countdown c' = 3)).
Proof.
  split.
  - pose proof (startGameButton_idle s Hbutton) as Hidle.
    (* the start click *)
    pose proof (click_start_enabled s Hbutton) as H1.
    remember (commit s (playRound s)) as s1 eqn:E1; clear E1.
    pose proof (reachable_step s s1 _ Hs H1) as R1.
    pose proof (dispatch_phaseStep s s1 _ Hs H1) as (_ & G1 & C1).
    pose proof (dispatch_score _ s s1 H1) as S1. simpl in S1.
    (* first tick *)
    destruct (reachable_timers s1 R1) as [T1 K1].
    rewrite G1 in T1, K1. simpl in T1, K1.
    pose proof (tick_enabled s1 T1) as H2.
    remember (commit s1 (countdownTick s1)) as s2 eqn:E2; clear E2.
    pose proof (reachable_step s1 s2 _ R1 H2) as R2.
    pose proof (dispatch_phaseStep s1 s2 _ R1 H2) as (_ & P2).
    rewrite C1 in P2. simpl in P2. destruct P2 as [G2 C2].
    pose proof (dispatch_score _ s1 s2 H2) as S2. simpl in S2.
    (* second tick *)
    destruct (reachable_timers s2 R2) as [T2 K2].
    rewrite G2 in T2, K2. simpl in T2, K2.
    pose proof (tick_enabled s2 T2) as H3.
    remember (commit s2 (countdownTick s2)) as s3 eqn:E3; clear E3.
    pose proof (reachable_step s2 s3 _ R2 H3) as R3.
    pose proof (dispatch_phaseStep s2 s3 _ R2 H3) as (_ & P3).
    rewrite C2 in P3. simpl in P3. destruct P3 as [G3 C3].
    pose proof (dispatch_score _ s2 s3 H3) as S3. simpl in S3.
    (* third tick *)
    destruct (reachable_timers s3 R3) as [T3 K3].
    rewrite G3 in T3, K3. simpl in T3, K3.
    pose proof (tick_enabled s3 T3) as H4.
    remember (commit s3 (countdownTick s3)) as s4 eqn:E4; clear E4.
    pose proof (reachable_step s3 s4 _ R3 H4) as R4.
    pose proof (dispatch_phaseStep s3 s4 _ R3 H4) as (_ & P4).
    rewrite C3 in P4. simpl in P4. destruct P4 as [G4 C4].
    pose proof (dispatch_score _ s3 s4 H4) as S4. simpl in S4.
    (* the capture *)
    destruct (reachable_timers s4 R4) as [T4 K4].
    rewrite G4 in T4, K4. simpl in T4, K4.
    destruct (capture_enabled s4 r R4 G4 Hr) as (bm & _ & _ & H5).
    remember (commit s4 (captureCallback (playerGesture s4) bm
                                         (clearTimeout s4))) as s5 eqn:E5.
    clear E5.
    pose proof (reachable_step s4 s5 _ R4 H5) as R5.
    pose proof (dispatch_phaseStep s4 s5 _ R4 H5) as (_ & G5 & _).
    pose proof (dispatch_score _ s4 s5 H5) as (p5 & bm5 & _ & _ & S5).
    assert (Hsc : score s4 = {| player := 0; bot := 0 |}).
    { rewrite S4, S3, S2, S1. now apply reachable_idle_score. }
    assert (G5' : gameState s5 = RESULT).
    { rewrite G5, S5, Hsc.
      now destruct (determineWinner p5 bm5). }
    destruct (reachable_timers s5 R5) as [T5 K5].
    rewrite G5' in T5, K5. simpl in T5, K5.
    destruct (reachable_timers s Hs) as [T0 K0].
    rewrite Hidle in T0, K0. simpl in T0, K0.
    exists s1, s2, s3, s4, s5.
    rewrite G1, C1, G2, C2, G3, C3, G4, C4.
    repeat split; auto using tick_disabled, timeout_disabled.
  - destruct (reachable_timers c Hc) as [Tc _].
    rewrite Hcount in Tc. simpl in Tc.
    pose proof (tick_enabled c Tc) as Hd.
    exists (commit c (countdownTick c)). split; [exact Hd|].
    pose proof (dispatch_phaseStep c _ _ Hc Hd) as (_ & P).
    split; intros Hlt.
    + destruct (countdown c <=? 1) eqn:E; [apply Z.leb_le in E; lia | exact P].
    + rewrite Hlt in P. exact P.
Qed.

Lemma normal_round_witness :
  reachable readyApp
  /\ startGameButton readyApp = true
  /\ inUnitInterval (fraction 3 4) = true
  /\ reachable lastSecondApp
  /\ gameState lastSecondApp = COUNTDOWN
  /\ exists s',
       run (ClickStartGame :: oneRound (fraction 3 4)) readyApp = Some s'
       /\ gameState s' = RESULT.
Proof.
  split; [exact readyApp_reachable|]. split; [reflexivity|].
  split; [reflexivity|]. split; [exact lastSecondApp_reachable|].
  split; [reflexivity|].
  destruct (normal_round readyApp lastSecondApp (fraction 3 4) readyApp_reachable
              eq_refl eq_refl lastSecondApp_reachable eq_refl)
    as [(s1 & s2 & s3 & s4 & s5 & _ & _ & _ & H1 & _ & _ & H2 & _ & _ & H3
         & _ & _ & H4 & _ & _ & H5 & G5 & _) _].
  exists s5. cbn [run oneRound]. rewrite H1, H2, H3, H4, H5.
  split; [reflexivity | exact G5].
Defined.

(** ** C6: starting a round *)

(** After the reset the "Start Game" button is back. *)
Lemma play_again_then_start (g g' : App) :
  reachable g -> dispatch ClickPlayAgain g = Some g' ->
  gameState g = GAME_OVER /\ gameState g' = IDLE
  /\ startGameButton g' = true.
Proof.
  intros Hreach Hd. pose proof (reachable_Inv g Hreach) as HI.
  destruct g as [gs [p b] pg bg gr cd ml pgr er sr ct cap].
  break_inv HI. subst sr.
  destruct er, ml, gs, pg, cap, ct; finish_phase Hd.
Qed.

(** C6. The intent to start a round reaches [playRound] through the
    "Start Game" and "Next Round" clicks, and a click is rejected unless its
    button is rendered: in COUNTDOWN, PLAYING and GAME_OVER both are
    rejected, "Start Game" is accepted in IDLE only and "Next Round" in
    RESULT only; after the reset of a finished game the state is IDLE and
    "Start Game" is accepted again.  A rejected click changes nothing and
    raises nothing.  When a click is accepted in a reachable state no timer
    of an earlier round is pending, the countdown starts at 3 with its
    interval running, and the error field is untouched: rounds do not
    overlap. *)
Theorem startRound_gated_by_rendering (s s' t : App) (e : Event)
        (Hreach : reachable s)
        (Hclick : e = ClickStartGame \/ e = ClickNextRound)
        (Hd : dispatch e s = Some s') :
  (gameState s = IDLE \/ gameState s = RESULT)
  /\ countdownTimer s = false /\ captureTimer s = None
  /\ s' = commit s (playRound s)
  /\ gameState s' = COUNTDOWN /\ countdown s' = 3
  /\ countdownTimer s' = true /\ captureTimer s' = None
  /\ error s' = error s
  /\ match gameState t with
     | IDLE => dispatch ClickNextRound t = None
     | RESULT => dispatch ClickStartGame t = None
     | COUNTDOWN | PLAYING | GAME_OVER =>
         dispatch ClickStartGame t = None /\ dispatch ClickNextRound t = None
     end
  /\ (forall g g',
        reachable g -> dispatch ClickPlayAgain g = Some g' ->
        gameState g = GAME_OVER /\ gameState g' = IDLE
        /\ dispatch ClickStartGame g' = Some (commit g' (playRound g'))).
Proof.
  pose proof (reachable_step s s' e Hreach Hd) as Hreach'.
  pose proof (dispatch_phaseStep s s' e Hreach Hd) as Hstep.
  destruct (reachable_timers s Hreach) as [Ht Hc].
  destruct (reachable_timers s' Hreach') as [Ht' Hc'].
  apply dispatch_handler in Hd as (next & Hh & Hs').
  assert (Hphase : (gameState s = IDLE \/ gameState s = RESULT)
                   /\ gameState s' = COUNTDOWN /\ countdown s' = 3
                   /\ next = playRound s).
  { destruct Hclick as [-> | ->]; simpl in Hstep, Hh;
      destruct Hstep as (Hg & Hg' & Hc3);
      [destruct (startGameButton s) | destruct (nextRoundButton s)];
      try discriminate Hh; injection Hh as <-; auto. }
  destruct Hphase as (Hg & Hg' & Hc3 & ->).
  rewrite Hg' in Ht', Hc'. simpl in Ht', Hc'.
  assert (countdownTimer s = false /\ captureTimer s = None) as [Ht0 Hc0].
  { destruct Hg as [Hg | Hg]; rewrite Hg in Ht, Hc; auto. }
  assert (Herr : error s' = error s).
  { rewrite Hs'. rewrite error_commit.
    destruct s as [? [? ?] ? ? ? ? ? ? ? ? ? ?]. reflexivity. }
  repeat (split; [assumption|]).
  split.
  - unfold dispatch, handler, startGameButton, nextRoundButton.
    destruct (gameState t); simpl; rewrite ?andb_false_r; auto.
  - intros g g' Hg0 Hd0.
    destruct (play_again_then_start g g' Hg0 Hd0) as (Hover & Hidle & Hb).
    split; [exact Hover|]. split; [exact Hidle|].
    now apply click_start_enabled.
Qed.

(** "Start Game" is accepted on the first screen and both clicks are
    rejected while the capture window is open. *)
Lemma startRound_gated_by_rendering_witness :
  reachable readyApp
  /\ dispatch ClickStartGame readyApp
     = Some (commit readyApp (playRound readyApp))
  /\ gameState readyApp = IDLE
  /\ dispatch ClickStartGame playingApp = None
  /\ dispatch ClickNextRound playingApp = None.
Proof.
  split; [exact readyApp_reachable|]. split; [reflexivity|].
  destruct (startRound_gated_by_rendering readyApp _ playingApp
              ClickStartGame readyApp_reachable (or_introl eq_refl) eq_refl)
    as (Hg & _ & _ & _ & _ & _ & _ & _ & _ & Hrej & _).
  split; [|exact Hrej].
  destruct Hg as [Hg | Hg]; [exact Hg | discriminate Hg].
Defined.

(** ** C7: the bot's gesture *)




(** ** C8: reset *)

(** C8. From a reachable GAME_OVER state [resetGame], followed by the
    effects, gives score 0-0, IDLE, no result and NONE for both gestures;
    with the countdown at 3 and no timer pending this is the initial state,
    up to the camera and model flags, which reset does not touch.  The
    "Play Again" button, when it is on screen, does exactly this. *)
Theorem resetGame_restores_initial (s : App)
        (Hreach : reachable s) (Hover : gameState s = GAME_OVER) :
  let s' := commit s (resetGame s) in
  score s' = {| player := 0; bot := 0 |}
  /\ gameState s' = IDLE
  /\ gameResult s' = None
  /\ playerGesture s' = NONE
  /\ botGesture s' = NONE
  /\ s' = setError (error s)
            (setPermissionGranted (permissionGranted s)
               (setIsModelLoading (isModelLoading s) initialApp))
  /\ (playAgainButton s = true -> dispatch ClickPlayAgain s = Some s').
Proof.
  pose proof (reachable_Inv s Hreach) as HI.
  destruct s as [gs [p b] pg bg gr cd ml pgr er sr ct cap].
  break_inv HI. simpl in Hover. subst gs sr.
  assert (cd = 3) as -> by (apply Hcdr; discriminate).
  destruct ct; [destruct Htmr as [Ht _]; discriminate (Ht eq_refl)|].
  destruct cap as [cp|]; [destruct Hcap; discriminate|].
  cbv zeta.
  repeat (split; [destruct pg; vm_compute; reflexivity|]).
  intros Hb. unfold dispatch, handler. now rewrite Hb.
Qed.

Lemma resetGame_restores_initial_witness :
  reachable gameOverApp
  /\ gameState gameOverApp = GAME_OVER
  /\ commit gameOverApp (resetGame gameOverApp) = readyApp.
Proof.
  split; [exact gameOverApp_reachable|]. split; [reflexivity|].
  destruct (resetGame_restores_initial gameOverApp gameOverApp_reachable
              eq_refl) as (_ & _ & _ & _ & _ & H & _).
  exact H.
Defined.

(** ** C9: the capture *)

(** C9. When the capture timeout fires in PLAYING, every draw, a binary64
    value of the unit interval, selects one of ROCK, PAPER, SCISSORS, never
    NONE nor [undefined]: the rounded product with [moves.length] stays
    below 3.  Each of the three is selected by some draw (0, 1/2 and 3/4).
    The closure holds the gesture polled last; the result is the one
    [determineWinner] gives for that pair, with its message; the score moves
    only on a decisive outcome; the next state is RESULT, or GAME_OVER when
    the score has reached the winning score. *)
Theorem capture_resolves_round (s : App) (r : number)
        (Hreach : reachable s) (Hplaying : gameState s = PLAYING)
        (Hr : inUnitInterval r = true) :
  exists botMove s',
    botMoveOf r = Some botMove
    /\ In botMove [ROCK; PAPER; SCISSORS]
    /\ captureTimer s = Some (playerGesture s)
    /\ dispatch (TimeoutFire r) s = Some s'
    /\ botGesture s' = botMove
    /\ playerGesture s' = playerGesture s
    /\ gameResult s' =
       Some {| winner := Some (determineWinner (playerGesture s) botMove);
               message := snd (resolutionRule (playerGesture s) botMove) |}
    /\ score s' =
       scoreAfter (outcomeOf (determineWinner (playerGesture s) botMove))
                  (score s)
    /\ gameState s' =
       (if (WINNING_SCORE <=? player (score s'))
           || (WINNING_SCORE <=? bot (score s'))
        then GAME_OVER else RESULT)
    /\ (inUnitInterval (numberOfZ 0) = true
        /\ botMoveOf (numberOfZ 0) = Some ROCK)
    /\ (inUnitInterval (fraction 1 2) = true
        /\ botMoveOf (fraction 1 2) = Some PAPER)
    /\ (inUnitInterval (fraction 3 4) = true
        /\ botMoveOf (fraction 3 4) = Some SCISSORS).
Proof.
  destruct (capture_enabled s r Hreach Hplaying Hr) as (bm & Hbm & Hcap & Hd).
  exists bm,
    (commit s (captureCallback (playerGesture s) bm (clearTimeout s))).
  pose proof (dispatch_phaseStep _ _ _ Hreach Hd) as (_ & Hgs & _).
  pose proof (dispatch_score _ _ _ Hd) as (p & bm' & Hp & Hbm' & Hsc).
  assert (p = playerGesture s) as -> by congruence.
  assert (bm' = bm) as -> by congruence.
  destruct (captureCallback_fields (playerGesture s) bm (clearTimeout s))
    as (Hg & Hb & Hpg & Hres).
  assert (Hkeep : gameState (captureCallback (playerGesture s) bm
                                             (clearTimeout s)) <> COUNTDOWN)
    by (rewrite Hg; discriminate).
  destruct (result_commit s _ Hkeep) as [Hbot Hresult].
  split; [exact Hbm|].
  split; [exact (botMoveOf_in_moves r bm Hbm)|].
  split; [exact Hcap|].
  split; [exact Hd|].
  split; [now rewrite Hbot|].
  split; [now rewrite playerGesture_commit|].
  split; [now rewrite Hresult|].
  split; [exact Hsc|].
  split; [exact Hgs|].
  repeat split; vm_compute; reflexivity.
Qed.

(** A draw of three quarters against a fist: scissors, and the player
    wins. *)
Lemma capture_resolves_round_witness :
  reachable playingApp
  /\ gameState playingApp = PLAYING
  /\ inUnitInterval (fraction 3 4) = true
  /\ exists s',
       dispatch (TimeoutFire (fraction 3 4)) playingApp = Some s'
       /\ botGesture s' = SCISSORS
       /\ score s' = {| player := 1; bot := 0 |}
       /\ gameState s' = RESULT.
Proof.
  split; [exact playingApp_reachable|].
  do 2 (split; [reflexivity|]).
  destruct (capture_resolves_round playingApp (fraction 3 4) playingApp_reachable
              eq_refl eq_refl)
    as (bm & s' & Hbm & _ & _ & Hd & Hbot & _ & _ & Hsc & Hgs & _).
  exists s'. split; [exact Hd|].
  vm_compute in Hbm. injection Hbm as <-.
  rewrite Hgs, Hsc. split; [exact Hbot|]. split; reflexivity.
Defined.

(** ** C10: gesture detection *)

Section Detect.

Import VisionService.

Variable gestureRecognizer : option GestureRecognizer.
Variable video : HTMLVideoElement.
Variable now : Q.

Let none0 : Detection := {| gesture := NONE; confidence := 0 |}.

(** C10. [detect] returns a gesture and a confidence for every input.  It
    returns NONE with confidence 0 when the recognizer is not initialized,
    when the video's current time is 0, when anything raises inside the
    [try] block (the recognizer itself, or reading the top category of a
    hand that has none) and when no hand is listed.  Otherwise the top
    category of the first hand decides: 'Closed_Fist' is ROCK, 'Open_Palm'
    is PAPER, 'Victory' is SCISSORS, any other name is NONE, each with
    that category's score as confidence. *)
Theorem detect_total :
  (exists d, detect gestureRecognizer video now = d)
  /\ (gestureRecognizer = None -> detect gestureRecognizer video now = none0)
  /\ (currentTime video == 0 -> detect gestureRecognizer video now = none0)%Q
  /\ (forall recognizer,
         gestureRecognizer = Some recognizer ->
         tryBlock recognizer video now = Throws ->
         detect gestureRecognizer video now = none0)
  /\ (forall recognizer,
         gestureRecognizer = Some recognizer ->
         ~ (currentTime video == 0)%Q ->
         detect gestureRecognizer video now =
         match recognizer video now with
         | Raises => none0
         | Recognized [] => none0
         | Recognized ([] :: _) => none0
         | Recognized ((topGesture :: _) :: _) =>
             {| gesture := gestureOfCategory (categoryName topGesture);
                confidence := score topGesture |}
         end)
  /\ gestureOfCategory "Closed_Fist" = ROCK
  /\ gestureOfCategory "Open_Palm" = PAPER
  /\ gestureOfCategory "Victory" = SCISSORS
  /\ (forall name,
         name <> "Closed_Fist" -> name <> "Open_Palm" -> name <> "Victory" ->
         gestureOfCategory name = NONE).
Proof.
  split; [eexists; reflexivity|].
  split; [intros ->; reflexivity|].
  split.
  { intros H0. unfold detect. destruct gestureRecognizer; [|reflexivity].
    apply Qeq_bool_iff in H0. now rewrite H0. }
  split.
  { intros recognizer -> Hthrow. unfold detect.
    rewrite Hthrow. now destruct (Qeq_bool _ _). }
  split.
  { intros recognizer -> Hne. unfold detect, tryBlock.
    destruct (Qeq_bool (currentTime video) 0) eqn:E.
    - apply Qeq_bool_iff in E. contradiction.
    - destruct (recognizer video now) as [|[|[|top others] rest]];
        try reflexivity.
      unfold gestureOfCategory.
      destruct (String.eqb _ "Closed_Fist"); [reflexivity|].
      destruct (String.eqb _ "Open_Palm"); [reflexivity|].
      destruct (String.eqb _ "Victory"); reflexivity. }
  do 3 (split; [reflexivity|]).
  intros name H1 H2 H3. unfold gestureOfCategory.
  apply String.eqb_neq in H1, H2, H3. now rewrite H1, H2, H3.
Qed.

End Detect.

(** * Further properties *)

(** ** The rule and the game-state graph *)

(** X1. Among real gestures the rule is antisymmetric: the player wins with
    [(p, b)] exactly when the bot wins with the gestures swapped, a draw
    stays a draw and happens only on equal gestures, and a real gesture is
    never judged invalid. *)
Theorem determineWinner_antisymmetric (p b : Gesture)
        (Hp : p <> NONE) (Hb : b <> NONE) :
  (determineWinner p b = winner_player <-> determineWinner b p = winner_bot)
  /\ (determineWinner p b = winner_draw <-> p = b)
  /\ (determineWinner p b = winner_draw <-> determineWinner b p = winner_draw)
  /\ determineWinner p b <> winner_invalid
  /\ ~ (determineWinner p b = winner_player
        /\ determineWinner b p = winner_player).
Proof.
  destruct p, b; try congruence; cbn;
    repeat split; intros; try congruence; try tauto;
    try (intros [? ?]; congruence).
Qed.

Lemma determineWinner_antisymmetric_witness :
  ROCK <> NONE /\ SCISSORS <> NONE
  /\ determineWinner SCISSORS ROCK = winner_bot.
Proof.
  split; [discriminate|]. split; [discriminate|].
  apply (determineWinner_antisymmetric ROCK SCISSORS);
    [discriminate | discriminate | reflexivity].
Defined.

(** X2. A step of the running component keeps the game state or follows
    one of six edges, each taken by one kind of event only: the start click
    (IDLE to COUNTDOWN), the interval tick (COUNTDOWN to PLAYING), the
    capture timeout (PLAYING to RESULT or GAME_OVER), the next-round click
    (RESULT to COUNTDOWN) and the play-again click (GAME_OVER to IDLE). *)
Theorem phase_graph (s s' : App) (e : Event)
        (Hreach : reachable s) (Hd : dispatch e s = Some s') :
  (gameState s' = gameState s \/ In (gameState s, gameState s') phaseEdges)
  /\ (gameState s' <> gameState s ->
      match gameState s with
      | IDLE => e = ClickStartGame
      | COUNTDOWN => e = IntervalTick
      | PLAYING => exists r, e = TimeoutFire r
      | RESULT => e = ClickNextRound
      | GAME_OVER => e = ClickPlayAgain
      end).
Proof.
  pose proof (dispatch_phaseStep s s' e Hreach Hd) as Hstep.
  destruct e; simpl in Hstep;
    try (destruct Hstep as [Hg _]; split; [left; exact Hg | congruence]).
  - destruct Hstep as (-> & -> & _). split; [right; simpl; tauto | reflexivity].
  - destruct Hstep as (-> & -> & _). split; [right; simpl; tauto | reflexivity].
  - destruct Hstep as (-> & -> & _). split; [right; simpl; tauto | reflexivity].
  - destruct Hstep as (-> & Hstep).
    destruct (countdown s <=? 1); destruct Hstep as [-> _];
      (split; [simpl; tauto | congruence || reflexivity]).
  - destruct Hstep as (-> & -> & _).
    destruct (_ || _); (split; [right; simpl; tauto | intros _; now exists r]).
Qed.

Lemma phase_graph_witness :
  reachable lastSecondApp
  /\ dispatch IntervalTick lastSecondApp = Some playingApp
  /\ In (gameState lastSecondApp, gameState playingApp) phaseEdges.
Proof.
  split; [exact lastSecondApp_reachable|]. split; [reflexivity|].
  destruct (phase_graph lastSecondApp playingApp IntervalTick
              lastSecondApp_reachable eq_refl) as [[H | H] _].
  - discriminate H.
  - exact H.
Defined.

(** ** Timers *)

Lemma countdownTimer_effectsPass (prev cur : App) :
  countdownTimer (effectsPass prev cur) =
  if GameState_eqb (gameState prev) (gameState cur) then countdownTimer cur
  else match gameState cur, gameState prev with
       | COUNTDOWN, _ => true
       | _, COUNTDOWN => false
       | _, _ => countdownTimer cur
       end.
Proof.
  unfold effectsPass, scoreEffect, playingEffect, countdownEffect.
  destruct (scoreReplaced cur);
    destruct ((WINNING_SCORE <=? player (score cur))
              || (WINNING_SCORE <=? bot (score cur)));
    destruct (Gesture_eqb (playerGesture prev) (playerGesture cur));
    destruct (gameState prev); destruct (gameState cur);
    cbn -[Z.leb]; reflexivity.
Qed.

Lemma captureTimer_effectsPass (prev cur : App) :
  captureTimer (effectsPass prev cur) =
  if GameState_eqb (gameState prev) (gameState cur)
     && Gesture_eqb (playerGesture prev) (playerGesture cur)
  then captureTimer cur
  else match gameState cur, gameState prev with
       | PLAYING, _ => Some (playerGesture cur)
       | _, PLAYING => None
       | _, _ => captureTimer cur
       end.
Proof.
  unfold effectsPass, scoreEffect, playingEffect, countdownEffect.
  destruct (scoreReplaced cur);
    destruct ((WINNING_SCORE <=? player (score cur))
              || (WINNING_SCORE <=? bot (score cur)));
    destruct (Gesture_eqb (playerGesture prev) (playerGesture cur));
    destruct (gameState prev); destruct (gameState cur);
    cbn -[Z.leb]; reflexivity.
Qed.

Lemma result_fields_effectsPass (prev cur : App) :
  botGesture (effectsPass prev cur) =
  (if GameState_eqb (gameState prev) (gameState cur) then botGesture cur
   else match gameState cur with
        | COUNTDOWN => NONE
        | _ => botGesture cur
        end)
  /\ gameResult (effectsPass prev cur) =
     (if GameState_eqb (gameState prev) (gameState cur) then gameResult cur
      else match gameState cur with
           | COUNTDOWN => None
           | _ => gameResult cur
           end).
Proof.
  unfold effectsPass, scoreEffect, playingEffect, countdownEffect.
  destruct (scoreReplaced cur);
    destruct ((WINNING_SCORE <=? player (score cur))
              || (WINNING_SCORE <=? bot (score cur)));
    destruct (Gesture_eqb (playerGesture prev) (playerGesture cur));
    destruct (gameState prev); destruct (gameState cur);
    cbn -[Z.leb]; auto.
Qed.

Ltac effects_fields :=
  repeat first
    [ rewrite gameState_effectsPass
    | rewrite scoreReplaced_effectsPass
    | rewrite playerGesture_effectsPass
    | rewrite score_effectsPass
    | rewrite countdownTimer_effectsPass
    | rewrite captureTimer_effectsPass
    | rewrite (proj1 (result_fields_effectsPass _ _))
    | rewrite (proj2 (result_fields_effectsPass _ _)) ].

(** X3. Whatever a handler did to the state, once the effects have run no
    timer outlives its phase: leaving COUNTDOWN clears the interval and
    leaving PLAYING clears the capture timeout; entering COUNTDOWN starts
    the interval and clears the bot's gesture and the result; entering
    PLAYING arms the capture timeout with the gesture on screen. *)
Theorem effects_cancel_stale_timers (prev next : App) :
  let s' := commit prev next in
  (gameState prev = COUNTDOWN -> gameState s' <> COUNTDOWN ->
   countdownTimer s' = false)
  /\ (gameState prev = PLAYING -> gameState s' <> PLAYING ->
      captureTimer s' = None)
  /\ (gameState prev <> COUNTDOWN -> gameState s' = COUNTDOWN ->
      countdownTimer s' = true /\ botGesture s' = NONE
      /\ gameResult s' = None)
  /\ (gameState prev <> PLAYING -> gameState s' = PLAYING ->
      captureTimer s' = Some (playerGesture s')).
Proof.
  cbv zeta. unfold commit. effects_fields.
  destruct (scoreReplaced next
            && ((WINNING_SCORE <=? player (score next))
                || (WINNING_SCORE <=? bot (score next))));
    destruct (gameState prev), (gameState next);
    destruct (Gesture_eqb (playerGesture prev) (playerGesture next));
    simpl; rewrite ?Gesture_eqb_refl; simpl;
    repeat split; intros; congruence.
Qed.

(** X4. In every reachable state the countdown interval is live exactly in
    COUNTDOWN and the capture timeout is pending exactly in PLAYING, where
    its closure holds the gesture currently on screen; the two timers are
    never live together. *)
Theorem timers_follow_phase (s : App) (Hreach : reachable s) :
  (countdownTimer s = true <-> gameState s = COUNTDOWN)
  /\ (forall g, captureTimer s = Some g <->
                gameState s = PLAYING /\ g = playerGesture s)
  /\ ~ (countdownTimer s = true /\ captureTimer s <> None).
Proof.
  destruct (reachable_timers s Hreach) as [Ht Hc].
  rewrite Ht, Hc.
  destruct (gameState s); simpl; repeat split; intros;
    try discriminate; try tauto; try congruence;
    try (destruct H; congruence);
    intros [H _]; discriminate H.
Qed.

Lemma timers_follow_phase_witness :
  reachable playingApp
  /\ countdownTimer playingApp = false
  /\ captureTimer playingApp = Some (playerGesture playingApp).
Proof.
  split; [exact playingApp_reachable|].
  destruct (timers_follow_phase playingApp playingApp_reachable)
    as (Ht & Hc & _).
  split.
  - destruct (countdownTimer playingApp) eqn:E; [|reflexivity].
    destruct Ht as [Ht _]. discriminate (Ht eq_refl).
  - apply Hc. split; reflexivity.
Defined.

(** X5. A reachable session never gets stuck.  In COUNTDOWN the tick can
    fire and in PLAYING the capture can fire for every draw; in IDLE,
    RESULT and GAME_OVER the button of the panel (start, next round, play
    again) is on screen whenever the game panel is, and its click is
    accepted. *)
Theorem session_never_stuck (s : App) (r : number)
        (Hreach : reachable s) (Hr : inUnitInterval r = true) :
  match gameState s with
  | IDLE =>
      startGameButton s = gamePanel s
      /\ (gamePanel s = true -> exists s', dispatch ClickStartGame s = Some s')
  | COUNTDOWN => exists s', dispatch IntervalTick s = Some s'
  | PLAYING => exists s', dispatch (TimeoutFire r) s = Some s'
  | RESULT =>
      nextRoundButton s = gamePanel s
      /\ (gamePanel s = true -> exists s', dispatch ClickNextRound s = Some s')
  | GAME_OVER =>
      playAgainButton s = gamePanel s
      /\ (gamePanel s = true -> exists s', dispatch ClickPlayAgain s = Some s')
  end.
Proof.
  pose proof (reachable_Inv s Hreach) as [_ _ _ _ _ _ Hph].
  destruct (reachable_timers s Hreach) as [Ht _].
  unfold phaseInvariant in Hph.
  destruct (gameState s) eqn:Hg; simpl in Ht.
  - unfold dispatch, handler, startGameButton. rewrite Hg. simpl.
    rewrite andb_true_r. split; [reflexivity|]. intros ->. eauto.
  - rewrite (tick_enabled s Ht). eauto.
  - destruct (capture_enabled s r Hreach Hg Hr) as (bm & _ & _ & Hd).
    rewrite Hd. eauto.
  - destruct Hph as (_ & _ & _ & Hres).
    unfold dispatch, handler, nextRoundButton. rewrite Hg. simpl.
    destruct (gameResult s); [|congruence].
    rewrite !andb_true_r. split; [reflexivity|]. intros ->. eauto.
  - unfold dispatch, handler, playAgainButton. rewrite Hg. simpl.
    rewrite andb_true_r. split; [reflexivity|]. intros ->. eauto.
Qed.

Lemma session_never_stuck_witness :
  reachable firstResultApp
  /\ inUnitInterval (fraction 1 2) = true
  /\ nextRoundButton firstResultApp = true.
Proof.
  assert (Hreach : reachable firstResultApp).
  { apply (reachable_step playingApp firstResultApp (TimeoutFire (fraction 3 4)));
      [exact playingApp_reachable | reflexivity]. }
  split; [exact Hreach|]. split; [reflexivity|].
  destruct (session_never_stuck firstResultApp (fraction 1 2) Hreach eq_refl)
    as [H _].
  exact H.
Defined.

(** ** The result on screen *)

Ltac pick_captured :=
  first [ exists NONE; vm_compute; repeat split; (reflexivity || lia)
        | exists ROCK; vm_compute; repeat split; (reflexivity || lia)
        | exists PAPER; vm_compute; repeat split; (reflexivity || lia)
        | exists SCISSORS; vm_compute; repeat split; (reflexivity || lia) ].

Ltac finish_result Hd Hres :=
  prune; vm_compute in Hd; try discriminate Hd;
  injection Hd as <-; unfold resultInvariant in *; simpl in *;
  first [ reflexivity | exact Hres | pick_captured ].

Lemma resultInvariant_step (s s' : App) (e : Event) :
  Inv s -> resultInvariant s -> dispatch e s = Some s' -> resultInvariant s'.
Proof.
  intros HI Hres Hd.
  destruct s as [gs [p b] pg bg gr cd ml pgr er sr ct cap].
  break_inv HI. subst sr.
  destruct e.
  - destruct er, ml, gs, pg, cap, ct; finish_result Hd Hres.
  - destruct er, ml, gs, gr, pg, cap, ct; finish_result Hd Hres.
  - destruct er, ml, gs, pg, cap, ct; finish_result Hd Hres.
  - destruct er, gs, pg, cap, ct; finish_result Hd Hres.
  - enum_countdown cd; destruct gs, pg, cap, ct; finish_result Hd Hres.
  - unfold dispatch, handler in Hd. cbn [captureTimer] in Hd.
    destruct cap as [cp|]; [|discriminate Hd].
    destruct (botMoveOf r) as [bm|] eqn:Hbm; [|discriminate Hd].
    destruct (inUnitInterval r); [|discriminate Hd].
    apply botMoveOf_not_NONE in Hbm.
    destruct Hcap as [-> ->].
    enum_score p; enum_score b; destruct pg, bm, ct; try congruence;
      try lia; finish_result Hd Hres.
  - destruct pgr, ml, gs, pg, g, cap, ct; finish_result Hd Hres.
  - destruct ml, gs, pg, cap, ct; finish_result Hd Hres.
  - destruct ml, gs, pg, cap, ct; finish_result Hd Hres.
  - destruct gs, pg, cap, ct; finish_result Hd Hres.
  - destruct gs, pg, cap, ct; finish_result Hd Hres.
Qed.

Lemma reachable_resultInvariant (s : App) : reachable s -> resultInvariant s.
Proof.
  induction 1 as [|s s' e Hreach IH Hd]; [reflexivity|].
  exact (resultInvariant_step s s' e (reachable_Inv s Hreach) IH Hd).
Qed.

(** X6. A game ends with exactly one winner.  The two scores never add up
    to more than 5; in GAME_OVER one side has exactly 3 points and the
    other fewer, the headline is "VICTORY!" exactly when it is the player,
    and the result on screen is the decisive last round. *)
Theorem game_over_has_one_winner (s : App) (Hreach : reachable s) :
  player (score s) + bot (score s) <= 5
  /\ (gameState s = GAME_OVER ->
      (player (score s) = 3 /\ bot (score s) < 3
       /\ gameOverHeadline s = "VICTORY!"
       /\ gameResult s
          = Some {| winner := Some winner_player; message := "You Win!" |})
      \/ (bot (score s) = 3 /\ player (score s) < 3
          /\ gameOverHeadline s = "DEFEAT"
          /\ gameResult s
             = Some {| winner := Some winner_bot; message := "Bot Wins!" |})).
Proof.
  pose proof (reachable_Inv s Hreach) as [_ Hp Hb _ _ _ Hph].
  pose proof (reachable_resultInvariant s Hreach) as Hres.
  unfold phaseInvariant, resultInvariant, gameOverHeadline, WINNING_SCORE in *.
  destruct (gameState s) eqn:Hg.
  - split; [|discriminate]. destruct Hph as [-> _]. simpl. lia.
  - split; [lia | discriminate].
  - split; [lia | discriminate].
  - split; [lia | discriminate].
  - destruct Hres as (p & Hr & Hw). rewrite Hr. unfold resultOf.
    assert (Hle : forall x, x = 3 -> (3 <=? x) = true)
      by (intros x ->; reflexivity).
    assert (Hgt : forall x, x < 3 -> (3 <=? x) = false)
      by (intros x Hx; now apply Z.leb_gt).
    destruct p, (botGesture s); simpl in Hw; try contradiction;
      destruct Hw as [Hw1 Hw2]; (split; [lia|]); intros _; simpl;
      first [ left; rewrite (Hle _ Hw1); repeat split; (lia || reflexivity)
            | right; rewrite (Hgt _ Hw2); repeat split; (lia || reflexivity) ].
Qed.

Lemma game_over_has_one_winner_witness :
  reachable gameOverApp /\ gameOverHeadline gameOverApp = "VICTORY!".
Proof.
  split; [exact gameOverApp_reachable|].
  destruct (game_over_has_one_winner gameOverApp gameOverApp_reachable)
    as [_ H].
  destruct (H eq_refl) as [(_ & _ & Hh & _) | (Hb & _)].
  - exact Hh.
  - discriminate Hb.
Defined.

(** X7. The result on screen always fits the round that produced it.
    There is no result in IDLE, COUNTDOWN and PLAYING.  In RESULT and
    GAME_OVER the result is what [determineWinner] says for some captured
    gesture against the bot's gesture still on screen, with the matching
    message; its winner is never null, and it is the invalid one exactly
    when the captured gesture was NONE. *)
Theorem result_fits_round (s : App) (Hreach : reachable s) :
  match gameResult s with
  | None =>
      gameState s = IDLE \/ gameState s = COUNTDOWN \/ gameState s = PLAYING
  | Some res =>
      (gameState s = RESULT \/ gameState s = GAME_OVER)
      /\ exists p,
          res = {| winner := Some (determineWinner p (botGesture s));
                   message := snd (resolutionRule p (botGesture s)) |}
          /\ isInvalidResult res = Gesture_eqb p NONE
  end.
Proof.
  pose proof (reachable_resultInvariant s Hreach) as Hres.
  unfold resultInvariant in Hres.
  destruct (gameState s) eqn:Hg.
  - rewrite Hres. tauto.
  - rewrite Hres. tauto.
  - rewrite Hres. tauto.
  - destruct Hres as (p & ->). split; [tauto|]. exists p.
    split; [reflexivity|]. now destruct p, (botGesture s).
  - destruct Hres as (p & -> & _). split; [tauto|]. exists p.
    split; [reflexivity|]. now destruct p, (botGesture s).
Qed.

Lemma result_fits_round_witness :
  reachable gameOverApp
  /\ exists p,
      gameResult gameOverApp = Some (resultOf p (botGesture gameOverApp)).
Proof.
  split; [exact gameOverApp_reachable|].
  destruct (result_fits_round gameOverApp gameOverApp_reachable)
    as (_ & p & Hp & _).
  exists p. simpl. now rewrite Hp.
Defined.

(** ** The detection loop *)

(** X8. A detection frame touches nothing but the player's gesture: game
    state, score, bot gesture, result and countdown stay as they are (so the
    RESULT panel shows the live gesture next to a result computed from the
    captured one); in PLAYING the pending capture timeout is replaced by
    one whose closure holds the new gesture. *)
Theorem detection_frame_only_moves_gesture (s s' : App) (g : Gesture)
        (Hreach : reachable s) (Hd : dispatch (DetectFrame g) s = Some s') :
  s' = withCaptureTimer
         (if GameState_eqb (gameState s) PLAYING then Some g else None)
         (setPlayerGesture g s)
  /\ gameState s' = gameState s /\ score s' = score s
  /\ botGesture s' = botGesture s /\ gameResult s' = gameResult s
  /\ countdown s' = countdown s /\ playerGesture s' = g.
Proof.
  pose proof (reachable_Inv s Hreach) as HI.
  destruct s as [gs [p b] pg bg gr cd ml pgr er sr ct cap].
  break_inv HI. subst sr.
  assert (s' = withCaptureTimer
                 (if GameState_eqb gs PLAYING then Some g else None)
                 (setPlayerGesture g
                    (mkApp gs (mkScore p b) pg bg gr cd ml pgr er false ct
                           cap))) as ->.
  { destruct pgr, ml, gs, pg, g, cap, ct; prune;
      try (destruct Hcap as [_ ->]); vm_compute in Hd;
      try discriminate Hd; injection Hd as <-; reflexivity. }
  repeat split; reflexivity.
Qed.

Lemma detection_frame_only_moves_gesture_witness :
  reachable playingApp
  /\ dispatch (DetectFrame PAPER) playingApp
     = Some (withCaptureTimer (Some PAPER) (setPlayerGesture PAPER playingApp))
  /\ captureTimer
       (withCaptureTimer (Some PAPER) (setPlayerGesture PAPER playingApp))
     = Some PAPER.
Proof.
  split; [exact playingApp_reachable|]. split; [reflexivity|].
  destruct (detection_frame_only_moves_gesture playingApp _ PAPER
              playingApp_reachable eq_refl) as [_ _].
  reflexivity.
Defined.

(** X9. No hand, no penalty.  When [detect] reports NONE for the frame that
    [detectLoop] reads during PLAYING (recognizer missing, video not
    started, an exception, no hand, or an unknown category), the capture
    that follows ends the round in RESULT with "No Hand Detected", the
    score is the one before the round, and the panel's button is on screen
    for the retry. *)
Theorem no_hand_no_penalty
        (gestureRecognizer : option VisionService.GestureRecognizer)
        (video : VisionService.HTMLVideoElement) (now : Q) (r : number)
        (s : App)
        (Hreach : reachable s) (Hplaying : gameState s = PLAYING)
        (Hloop : permissionGranted s && negb (isModelLoading s) = true)
        (Hnone : VisionService.gesture
                   (VisionService.detect gestureRecognizer video now) = NONE)
        (Hr : inUnitInterval r = true) :
  exists s1 s2,
    s1 = commit s (detectLoop gestureRecognizer (Some (video, 4)) now s)
    /\ dispatch (DetectFrame NONE) s = Some s1
    /\ dispatch (TimeoutFire r) s1 = Some s2
    /\ gameState s2 = RESULT
    /\ score s2 = score s
    /\ gameResult s2
       = Some {| winner := Some winner_invalid;
                 message := "No Hand Detected" |}
    /\ nextRoundButton s2 = gamePanel s2.
Proof.
  assert (Hd1 : dispatch (DetectFrame NONE) s
                = Some (commit s (detectLoop gestureRecognizer
                                             (Some (video, 4)) now s))).
  { unfold dispatch, handler, detectLoop. simpl. now rewrite Hloop, Hnone. }
  remember (commit s (detectLoop gestureRecognizer (Some (video, 4)) now s))
    as s1 eqn:E1.
  pose proof (reachable_step s s1 _ Hreach Hd1) as R1.
  pose proof (dispatch_phaseStep s s1 _ Hreach Hd1) as [G1 _].
  pose proof (dispatch_score _ s s1 Hd1) as S1. simpl in G1, S1.
  assert (P1 : playerGesture s1 = NONE).
  { rewrite E1, playerGesture_commit. unfold detectLoop. simpl.
    now rewrite Hnone. }
  rewrite Hplaying in G1.
  destruct (capture_enabled s1 r R1 G1 Hr) as (bm & Hbm & _ & Hd2).
  rewrite P1 in Hd2.
  remember (commit s1 (captureCallback NONE bm (clearTimeout s1)))
    as s2 eqn:E2.
  pose proof (reachable_step s1 s2 _ R1 Hd2) as R2.
  pose proof (dispatch_phaseStep s1 s2 _ R1 Hd2) as (_ & G2 & _).
  assert (S2 : score s2 = score s).
  { rewrite E2, score_commit, score_captureCallback, <- S1.
    reflexivity. }
  assert (G2' : gameState s2 = RESULT).
  { rewrite G2, S2.
    pose proof (reachable_Inv s Hreach) as [_ _ _ _ _ _ Hph].
    unfold phaseInvariant in Hph. rewrite Hplaying in Hph.
    destruct Hph as (Hp & Hb & _).
    apply Z.leb_gt in Hp, Hb. now rewrite Hp, Hb. }
  assert (Hres : gameResult s2
                 = Some {| winner := Some winner_invalid;
                           message := "No Hand Detected" |}).
  { rewrite E2.
    destruct (captureCallback_fields NONE bm (clearTimeout s1))
      as (Hg & _ & _ & Hres).
    change (Some {| winner := Some winner_invalid;
                    message := "No Hand Detected" |})
      with (Some {| winner := Some (determineWinner NONE bm);
                    message := snd (resolutionRule NONE bm) |}).
    rewrite <- Hres. apply result_commit. rewrite Hg. discriminate. }
  exists s1, s2.
  repeat (split; [assumption || reflexivity|]).
  unfold nextRoundButton. rewrite G2', Hres. simpl.
  now rewrite !andb_true_r.
Qed.

Lemma no_hand_no_penalty_witness :
  reachable playingApp
  /\ gameState playingApp = PLAYING
  /\ exists s2,
      run [DetectFrame NONE; TimeoutFire (fraction 1 2)] playingApp = Some s2
      /\ score s2 = score playingApp.
Proof.
  split; [exact playingApp_reachable|]. split; [reflexivity|].
  destruct (no_hand_no_penalty None (VisionService.mkVideo 1) 0 (fraction 1 2)
              playingApp playingApp_reachable eq_refl eq_refl eq_refl
              eq_refl)
    as (s1 & s2 & _ & H1 & H2 & _ & Hs & _).
  exists s2. cbn [run]. rewrite H1, H2. split; [reflexivity | exact Hs].
Defined.

(** ** VisionService.detect, read backwards *)

(** X10. [detect] never invents a gesture.  When it reports ROCK, PAPER or
    SCISSORS, the recognizer is initialized, the video's current time is
    not 0, the recognition returned, and the top category of its first hand
    is named 'Closed_Fist', 'Open_Palm' or 'Victory' respectively; the
    confidence is that category's score.  A confidence other than 0 always
    is the score of such a top category. *)
Theorem detect_reports_only_what_was_recognized
        (gestureRecognizer : option VisionService.GestureRecognizer)
        (video : VisionService.HTMLVideoElement) (now : Q)
        (Hseen : VisionService.gesture
                   (VisionService.detect gestureRecognizer video now) <> NONE
                 \/ VisionService.confidence
                      (VisionService.detect gestureRecognizer video now)
                    <> 0%Q) :
  exists recognizer topGesture others hands,
    gestureRecognizer = Some recognizer
    /\ ~ (VisionService.currentTime video == 0)%Q
    /\ recognizer video now
       = VisionService.Recognized ((topGesture :: others) :: hands)
    /\ VisionService.confidence
         (VisionService.detect gestureRecognizer video now)
       = VisionService.score topGesture
    /\ match VisionService.gesture
               (VisionService.detect gestureRecognizer video now) with
       | ROCK => VisionService.categoryName topGesture = "Closed_Fist"
       | PAPER => VisionService.categoryName topGesture = "Open_Palm"
       | SCISSORS => VisionService.categoryName topGesture = "Victory"
       | NONE =>
           VisionService.categoryName topGesture <> "Closed_Fist"
           /\ VisionService.categoryName topGesture <> "Open_Palm"
           /\ VisionService.categoryName topGesture <> "Victory"
       end.
Proof.
  unfold VisionService.detect, VisionService.tryBlock in *.
  destruct gestureRecognizer as [recognizer|];
    [|simpl in Hseen; destruct Hseen as [H | H]; now elim H].
  destruct (Qeq_bool (VisionService.currentTime video) 0) eqn:E0;
    [simpl in Hseen; destruct Hseen as [H | H]; now elim H|].
  destruct (recognizer video now) as [|[|[|top others] hands]] eqn:Erec;
    try (simpl in Hseen; destruct Hseen as [H | H]; now elim H).
  exists recognizer, top, others, hands.
  split; [reflexivity|]. split.
  { intros H. apply Qeq_bool_iff in H. congruence. }
  split; [exact Erec|].
  destruct (String.eqb _ "Closed_Fist") eqn:E1;
    [apply String.eqb_eq in E1; simpl; auto|].
  destruct (String.eqb _ "Open_Palm") eqn:E2;
    [apply String.eqb_eq in E2; simpl; auto|].
  destruct (String.eqb _ "Victory") eqn:E3;
    [apply String.eqb_eq in E3; simpl; auto|].
  apply String.eqb_neq in E1, E2, E3. simpl. auto.
Qed.

Lemma detect_reports_only_what_was_recognized_witness :
  VisionService.gesture
    (VisionService.detect
       (Some (fun _ _ =>
                VisionService.Recognized
                  [[VisionService.mkCategory "Victory" (9 # 10)]]))
       (VisionService.mkVideo 1) 0)
  = SCISSORS.
Proof.
  destruct (detect_reports_only_what_was_recognized
              (Some (fun _ _ =>
                       VisionService.Recognized
                         [[VisionService.mkCategory "Victory" (9 # 10)]]))
              (VisionService.mkVideo 1) 0)
    as (_ & _ & _ & _ & _ & _ & _ & _ & _).
  - left. discriminate.
  - reflexivity.
Defined.

(** ** Camera and model failures *)

Lemma commit_unchanged (prev next : App) :
  gameState next = gameState prev ->
  playerGesture next = playerGesture prev ->
  scoreReplaced next = false ->
  commit prev next = next.
Proof.
  intros Hg Hp Hs. unfold commit.
  rewrite (effectsPass_unchanged prev next); auto.
  apply effectsPass_unchanged; auto.
Qed.

(** X11. Every message [startCamera] hands to [setError] is a non-empty
    string, so the error panel is shown.  On a reachable state a camera
    failure leaves the game state, score, countdown, gestures, result and
    timers alone; it hides every game button and shows "Retry Camera";
    the retry click is accepted and gives back the state before the
    failure, with the camera permission withdrawn and no error. *)
Theorem camera_failure_and_retry (err : CameraFailure) (s : App)
        (Hreach : reachable s) :
  cameraErrorMessage err <> EmptyString
  /\ exists s1 s2,
      dispatch (CameraError (cameraErrorMessage err)) s = Some s1
      /\ s1 = setPermissionGranted false
                (setError (Some (cameraErrorMessage err)) s)
      /\ startGameButton s1 = false /\ nextRoundButton s1 = false
      /\ playAgainButton s1 = false /\ retryCameraButton s1 = true
      /\ dispatch ClickRetryCamera s1 = Some s2
      /\ s2 = setPermissionGranted false (setError None s).
Proof.
  split.
  { unfold cameraErrorMessage.
    destruct (_ || _); [discriminate|].
    destruct (nameIs err "NotFoundError"); discriminate. }
  pose proof (reachable_Inv s Hreach) as [Hsr _ _ _ _ _ _].
  set (m := cameraErrorMessage err).
  exists (setPermissionGranted false (setError (Some m) s)),
         (setPermissionGranted false (setError None s)).
  split.
  { unfold dispatch, handler. f_equal. now apply commit_unchanged. }
  split; [reflexivity|].
  do 4 (split; [reflexivity|]).
  split; [|reflexivity].
  unfold dispatch, handler. simpl. f_equal.
  rewrite commit_unchanged; auto.
Qed.

Lemma camera_failure_and_retry_witness :
  reachable playingApp
  /\ run [CameraError
            (cameraErrorMessage (mkCameraFailure (Some "NotFoundError") None));
          ClickRetryCamera] playingApp
     = Some (setPermissionGranted false playingApp).
Proof.
  split; [exact playingApp_reachable|].
  destruct (camera_failure_and_retry
              (mkCameraFailure (Some "NotFoundError") None) playingApp
              playingApp_reachable)
    as (_ & s1 & s2 & H1 & _ & _ & _ & _ & _ & H2 & E2).
  cbn [run]. rewrite H1, H2, E2. reflexivity.
Defined.

(** X12. The component state cannot tell a failed model load from a
    successful one once the camera has been retried: from every reachable
    state in which the model is still loading, and for every error
    message, the failure of [initialize] followed by the "Retry Camera"
    click leads to the very state that a successful load leads to.  From
    the initial state, with the camera's metadata event, that is the state
    with the "Start Game" button on screen. *)
Theorem failed_model_load_looks_ready (s : App) (msg : string)
        (Hreach : reachable s) (Hloading : isModelLoading s = true) :
  run [InitError msg; ClickRetryCamera] s = run [ModelLoaded] s
  /\ run [ModelLoaded] s = Some (setError None (setIsModelLoading false s))
  /\ run [InitError msg; ClickRetryCamera; CameraReady] initialApp
     = Some readyApp
  /\ startGameButton readyApp = true.
Proof.
  pose proof (reachable_Inv s Hreach) as [Hsr _ _ _ _ _ _].
  assert (H1 : dispatch (InitError msg) s
               = Some (setIsModelLoading false
                         (setError (Some ("System error: " ++ msg)) s))).
  { unfold dispatch, handler. rewrite Hloading. f_equal.
    now apply commit_unchanged. }
  assert (H2 : dispatch ModelLoaded s
               = Some (setError None (setIsModelLoading false s))).
  { unfold dispatch, handler. rewrite Hloading. f_equal.
    now apply commit_unchanged. }
  assert (H3 : dispatch ClickRetryCamera
                 (setIsModelLoading false
                    (setError (Some ("System error: " ++ msg)) s))
               = Some (setError None (setIsModelLoading false s))).
  { unfold dispatch, handler. simpl. f_equal.
    now rewrite commit_unchanged. }
  cbn [run]. rewrite H1, H2, H3.
  repeat split; reflexivity.
Qed.

Lemma failed_model_load_looks_ready_witness :
  reachable initialApp
  /\ isModelLoading initialApp = true
  /\ run [InitError "no wasm"; ClickRetryCamera] initialApp
     = run [ModelLoaded] initialApp.
Proof.
  split; [exact reachable_initial|]. split; [reflexivity|].
  exact (proj1 (failed_model_load_looks_ready initialApp "no wasm"
                  reachable_initial eq_refl)).
Defined.

(** ** The effects settle *)

(** X13. The effects cannot loop.  After a handler the effects are run
    twice; a third pass would change nothing, and the flag of the score
    effect is consumed.  When the handler touched neither the game state,
    nor the player's gesture, nor the score, the effects do nothing at
    all. *)
Theorem effects_settle (prev next : App) :
  effectsPass (effectsPass prev next) (commit prev next) = commit prev next
  /\ scoreReplaced (commit prev next) = false
  /\ (gameState next = gameState prev ->
      playerGesture next = playerGesture prev ->
      scoreReplaced next = false ->
      commit prev next = next).
Proof.
  split; [|split].
  - unfold commit. apply effectsPass_unchanged.
    + rewrite (gameState_effectsPass next), scoreReplaced_effectsPass.
      reflexivity.
    + now rewrite !playerGesture_effectsPass.
    + apply scoreReplaced_effectsPass.
  - apply scoreReplaced_effectsPass.
  - apply commit_unchanged.
Qed.

(** ** Scene3D *)

Section SceneFrame.

Import Scene3D.

Lemma updateSprite_sameLook (r : SpriteRef) (g : Gesture) (sc : Scene) :
  sameLook (updateSprite r g sc) sc.
Proof.
  unfold updateSprite, sameLook.
  destruct (texturesRef sc (ASSETS g)); [destruct (differs _ _)|];
    destruct r; simpl; auto 6.
Qed.

Lemma onLoad_sameLook (l : Load) (sc : Scene) : sameLook (onLoad l sc) sc.
Proof. unfold onLoad, sameLook. destruct (target l); simpl; auto 6. Qed.

Lemma onError_sameLook (l : Load) (sc : Scene) : sameLook (onError l sc) sc.
Proof. unfold onError, sameLook. destruct (target l); simpl; auto 6. Qed.

Lemma gestureEffect_player (g : Gesture) (sc : Scene) :
  scale (playerSprite (gestureEffect playerSpriteRef g sc)) = scaleFor g
  /\ scale (botSprite (gestureEffect playerSpriteRef g sc))
     = scale (botSprite sc)
  /\ animate_isCountingDown (gestureEffect playerSpriteRef g sc)
     = animate_isCountingDown sc
  /\ seenPlayerGesture (gestureEffect playerSpriteRef g sc)
     = seenPlayerGesture sc
  /\ seenBotGesture (gestureEffect playerSpriteRef g sc) = seenBotGesture sc.
Proof.
  destruct (updateSprite_sameLook playerSpriteRef g sc)
    as (_ & Hb & Hf & Hp & Hs).
  unfold gestureEffect. destruct g; simpl; auto 6.
Qed.

Lemma gestureEffect_bot (g : Gesture) (sc : Scene) :
  scale (botSprite (gestureEffect botSpriteRef g sc)) = scaleFor g
  /\ scale (playerSprite (gestureEffect botSpriteRef g sc))
     = scale (playerSprite sc)
  /\ animate_isCountingDown (gestureEffect botSpriteRef g sc)
     = animate_isCountingDown sc
  /\ seenPlayerGesture (gestureEffect botSpriteRef g sc)
     = seenPlayerGesture sc
  /\ seenBotGesture (gestureEffect botSpriteRef g sc) = seenBotGesture sc.
Proof.
  destruct (updateSprite_sameLook botSpriteRef g sc)
    as (Hb & _ & Hf & Hp & Hs).
  unfold gestureEffect. destruct g; simpl; auto 6.
Qed.

Lemma render_dressed (props : Props) (sc : Scene) :
  dressed sc ->
  dressed (render props sc)
  /\ seenPlayerGesture (render props sc) = playerGestureProp props
  /\ seenBotGesture (render props sc) = botGestureProp props
  /\ animate_isCountingDown (render props sc) = animate_isCountingDown sc.
Proof.
  intros [Hp Hb]. unfold render, dressed.
  set (sc1 := if Gesture_eqb (seenPlayerGesture sc) (playerGestureProp props)
              then sc
              else gestureEffect playerSpriteRef (playerGestureProp props)
                     (withSeen (playerGestureProp props) (seenBotGesture sc)
                               sc)).
  assert (H1 : scale (playerSprite sc1) = scaleFor (playerGestureProp props)
               /\ scale (botSprite sc1) = scaleFor (seenBotGesture sc)
               /\ seenPlayerGesture sc1 = playerGestureProp props
               /\ seenBotGesture sc1 = seenBotGesture sc
               /\ animate_isCountingDown sc1 = animate_isCountingDown sc).
  { subst sc1.
    destruct (Gesture_eqb _ _) eqn:E.
    - apply Gesture_eqb_spec in E. rewrite <- E. auto 6.
    - destruct (gestureEffect_player (playerGestureProp props)
                  (withSeen (playerGestureProp props) (seenBotGesture sc) sc))
        as (-> & -> & -> & -> & ->).
      simpl. auto 6. }
  destruct H1 as (H1p & H1b & H1sp & H1sb & H1f).
  destruct (Gesture_eqb (seenBotGesture sc1) (botGestureProp props)) eqn:E.
  - apply Gesture_eqb_spec in E. rewrite <- E, H1p, H1b, H1sp, H1sb.
    auto 6.
  - destruct (gestureEffect_bot (botGestureProp props)
                (withSeen (seenPlayerGesture sc1) (botGestureProp props) sc1))
      as (-> & -> & -> & -> & ->).
    simpl. rewrite H1p, H1sp. auto 6.
Qed.

End SceneFrame.

Lemma sceneInvariant_initial : sceneInvariant initialWorld.
Proof. repeat split. Qed.

Lemma sceneInvariant_step (w w' : World) (ev : WorldEvent) :
  sceneInvariant w -> worldStep ev w = Some w' -> sceneInvariant w'.
Proof.
  intros (Hf & Hp & Hb & Hd) Hstep. unfold sceneInvariant.
  destruct ev; simpl in Hstep.
  - destruct (handler e (app w)) as [next|]; [|discriminate].
    injection Hstep as <-. simpl.
    destruct (render_dressed (propsOf next) (scene w) Hd)
      as (D1 & _ & _ & F1).
    destruct (render_dressed
                (propsOf (effectsPass (app w) next)) _ D1)
      as (D2 & _ & _ & F2).
    destruct (render_dressed
                (propsOf (effectsPass next (effectsPass (app w) next))) _ D2)
      as (D3 & P3 & B3 & F3).
    rewrite F3, F2, F1, P3, B3. auto.
  - injection Hstep as <-. simpl.
    unfold Scene3D.animate. rewrite Hf. auto.
  - destruct (nth_error _ i) as [l|]; [|discriminate].
    injection Hstep as <-. simpl.
    destruct (onLoad_sameLook l
                (Scene3D.withLoading
                   (Scene3D.removeNth i (Scene3D.loading (scene w)))
                   (scene w))) as (S1 & S2 & S3 & S4 & S5).
    unfold Scene3D.dressed. rewrite S1, S2, S3, S4, S5. simpl.
    destruct Hd. split; auto.
  - destruct (nth_error _ i) as [l|]; [|discriminate].
    injection Hstep as <-. simpl.
    destruct (onError_sameLook l
                (Scene3D.withLoading
                   (Scene3D.removeNth i (Scene3D.loading (scene w)))
                   (scene w))) as (S1 & S2 & S3 & S4 & S5).
    unfold Scene3D.dressed. rewrite S1, S2, S3, S4, S5. simpl.
    destruct Hd. split; auto.
Qed.

Lemma reachableWorld_sceneInvariant (w : World) :
  reachableWorld w -> sceneInvariant w.
Proof.
  induction 1 as [|w w' ev _ IH Hstep]; [apply sceneInvariant_initial|].
  exact (sceneInvariant_step w w' ev IH Hstep).
Qed.

(** X14. The animation loop reads the [isCountingDown] it closed over when
    the scene was mounted, which is false; so whatever the game state, a
    frame never runs the countdown branch and leaves the sprites as they
    are.  The scale of each sprite therefore always is the one its gesture
    effect set: (4,4,1) for a real gesture of the player or of the bot,
    (3,3,1) for NONE. *)
Theorem scene_follows_gestures (w : World) (Hreach : reachableWorld w) :
  Scene3D.animate_isCountingDown (scene w) = false
  /\ Scene3D.animate (scene w) = scene w
  /\ Scene3D.scale (Scene3D.playerSprite (scene w))
     = Scene3D.scaleFor (playerGesture (app w))
  /\ Scene3D.scale (Scene3D.botSprite (scene w))
     = Scene3D.scaleFor (botGesture (app w)).
Proof.
  destruct (reachableWorld_sceneInvariant w Hreach)
    as (Hf & Hp & Hb & Hdp & Hdb).
  split; [exact Hf|]. split.
  - unfold Scene3D.animate. now rewrite Hf.
  - now rewrite <- Hp, <- Hb.
Qed.

Lemma runWorld_reachable (evs : list WorldEvent) :
  forall w w', reachableWorld w -> runWorld evs w = Some w' ->
               reachableWorld w'.
Proof.
  induction evs as [|ev evs IH]; simpl; intros w w' Hw Hrun.
  - now injection Hrun as <-.
  - destruct (worldStep ev w) as [w1|] eqn:Hstep; [|discriminate].
    exact (IH w1 w' (reachableWorld_step w w1 ev Hw Hstep) Hrun).
Qed.

Lemma countingWorld_reachable : reachableWorld countingWorld.
Proof.
  apply (runWorld_reachable
           [AppEvent ModelLoaded; AppEvent CameraReady;
            AppEvent (DetectFrame ROCK); AppEvent ClickStartGame]
           initialWorld);
    [apply reachableWorld_initial | reflexivity].
Qed.

Lemma scene_follows_gestures_witness :
  reachableWorld countingWorld
  /\ gameState (app countingWorld) = COUNTDOWN
  /\ Scene3D.animate (scene countingWorld) = scene countingWorld
  /\ Scene3D.scale (Scene3D.playerSprite (scene countingWorld)) = (4, 4, 1).
Proof.
  split; [exact countingWorld_reachable|]. split; [reflexivity|].
  destruct (scene_follows_gestures countingWorld countingWorld_reachable)
    as (_ & Ha & Hp & _).
  split; [exact Ha | exact Hp].
Defined.

(** ** The texture cache *)

Section TextureCache.

Import Scene3D.






Lemma differs_same (t : Texture) : differs (Some t) t = false.
Proof. unfold differs. now rewrite Nat.eqb_refl. Qed.

End TextureCache.



(** ** A texture that arrives late *)

Section GestureEffectFields.

Import Scene3D.

Variable r : SpriteRef.
Variable g : Gesture.
Variable sc : Scene.

Lemma gestureEffect_bookkeeping :
  texturesRef (gestureEffect r g sc) = texturesRef sc
  /\ nextId (gestureEffect r g sc) = nextId sc
  /\ seenPlayerGesture (gestureEffect r g sc) = seenPlayerGesture sc
  /\ seenBotGesture (gestureEffect r g sc) = seenBotGesture sc.
Proof.
  unfold gestureEffect, updateSprite.
  destruct (texturesRef sc (ASSETS g)); [destruct (differs _ _)|];
    destruct g, r; simpl; auto.
Qed.

Lemma gestureEffect_uncached :
  texturesRef sc (ASSETS g) = None ->
  loading (gestureEffect r g sc) = (loading sc ++ [mkLoad r (ASSETS g) g])%list
  /\ map (sprite r (gestureEffect r g sc)) = map (sprite r sc).
Proof.
  intros H. unfold gestureEffect, updateSprite. rewrite H.
  destruct g, r; simpl; auto.
Qed.

Lemma gestureEffect_cached (t : Texture) :
  texturesRef sc (ASSETS g) = Some t ->
  loading (gestureEffect r g sc) = loading sc
  /\ differs (map (sprite r (gestureEffect r g sc))) t = false.
Proof.
  intros H. unfold gestureEffect, updateSprite. rewrite H.
  destruct (differs (map (sprite r sc)) t) eqn:E;
    destruct g, r; simpl in *; split;
    first [ reflexivity | apply differs_same | exact E ].
Qed.

End GestureEffectFields.

Section RenderCases.

Import Scene3D.

Variable sc : Scene.
Variables g b : Gesture.
Variable cd : bool.

Hypothesis Hbot : seenBotGesture sc = b.

Lemma render_new_player_gesture :
  seenPlayerGesture sc <> g ->
  render (mkProps g b cd) sc
  = gestureEffect playerSpriteRef g (withSeen g b sc).
Proof.
  intros Hne. unfold render. simpl.
  destruct (Gesture_eqb (seenPlayerGesture sc) g) eqn:E.
  - apply Gesture_eqb_spec in E. contradiction.
  - rewrite Hbot.
    destruct (gestureEffect_bookkeeping playerSpriteRef g (withSeen g b sc))
      as (_ & _ & _ & ->).
    simpl. now rewrite Gesture_eqb_refl.
Qed.

Lemma render_same_gestures :
  seenPlayerGesture sc = g -> render (mkProps g b cd) sc = sc.
Proof.
  intros Hp. unfold render. simpl.
  now rewrite Hp, Gesture_eqb_refl, Hbot, Gesture_eqb_refl.
Qed.

End RenderCases.

Section LateTexture.

Import Scene3D.

Variable sc : Scene.
Variables g1 g2 b : Gesture.
Variable cd : bool.
Variable t2 : Texture.

Hypothesis Hnew : texturesRef sc (ASSETS g1) = None.
Hypothesis Hold : texturesRef sc (ASSETS g2) = Some t2.
Hypothesis Hseen : seenPlayerGesture sc <> g1.
Hypothesis Hbot : seenBotGesture sc = b.

Let late : Load := mkLoad playerSpriteRef (ASSETS g1) g1.
Let sc1 : Scene := render (mkProps g1 b cd) sc.
Let sc2 : Scene := render (mkProps g2 b cd) sc1.
Let sc3 : Scene := onLoad late (withLoading (loading sc) sc2).

(** X16. The player's gesture changes to [g1], whose texture is not cached
    yet, and on to [g2], whose texture is: the download for [g1] starts,
    the sprite shows the cached texture of [g2].  When the download then
    completes, its callback puts the texture of [g1] on the sprite although
    the gesture is [g2]; a further render with the same gesture does not
    repair it. *)
Theorem late_texture_overrides_current :
  g1 <> g2
  /\ loading sc2 = (loading sc ++ [late])%list
  /\ differs (map (playerSprite sc2)) t2 = false
  /\ map (playerSprite sc3) = Some (Loaded (ASSETS g1) (nextId sc))
  /\ seenPlayerGesture sc3 = g2
  /\ texturesRef sc3 (ASSETS g2) = Some t2
  /\ render (mkProps g2 b cd) sc3 = sc3.
Proof.
  assert (Hne : g1 <> g2) by (intros E; rewrite E in Hnew; congruence).
  assert (Hurl : String.eqb (ASSETS g2) (ASSETS g1) = false).
  { apply String.eqb_neq. intros E. rewrite E in Hold. congruence. }
  (* the first render starts the download *)
  assert (E1 : sc1 = gestureEffect playerSpriteRef g1 (withSeen g1 b sc))
    by (apply render_new_player_gesture; assumption).
  destruct (gestureEffect_bookkeeping playerSpriteRef g1 (withSeen g1 b sc))
    as (T1 & N1 & P1 & B1).
  destruct (gestureEffect_uncached playerSpriteRef g1 (withSeen g1 b sc) Hnew)
    as (L1 & _).
  rewrite <- E1 in T1, N1, P1, B1, L1. simpl in T1, N1, P1, B1, L1.
  (* the second render is served from the cache *)
  assert (E2 : sc2 = gestureEffect playerSpriteRef g2 (withSeen g2 b sc1)).
  { apply render_new_player_gesture; [exact B1 | now rewrite P1]. }
  assert (Hold1 : texturesRef (withSeen g2 b sc1) (ASSETS g2) = Some t2)
    by (simpl; now rewrite T1).
  destruct (gestureEffect_bookkeeping playerSpriteRef g2 (withSeen g2 b sc1))
    as (T2 & N2 & P2 & B2).
  destruct (gestureEffect_cached playerSpriteRef g2 (withSeen g2 b sc1) t2
              Hold1) as (L2 & D2).
  rewrite <- E2 in T2, N2, P2, B2, L2, D2. simpl in T2, N2, P2, B2, L2, D2.
  split; [exact Hne|].
  split; [now rewrite L2, L1|].
  split; [exact D2|].
  (* the download completes *)
  assert (P3 : seenPlayerGesture sc3 = g2) by exact P2.
  assert (B3 : seenBotGesture sc3 = b) by exact B2.
  split; [unfold sc3, onLoad; simpl; now rewrite N2, N1|].
  split; [exact P3|].
  split.
  - unfold sc3, onLoad. simpl. now rewrite Hurl, T2, T1.
  - now apply render_same_gestures.
Qed.

End LateTexture.

Lemma late_texture_overrides_current_witness :
  Scene3D.texturesRef (scene firstTextureWorld) (Scene3D.ASSETS ROCK) = None
  /\ Scene3D.texturesRef (scene firstTextureWorld) (Scene3D.ASSETS NONE)
     = Some (Scene3D.Loaded (Scene3D.ASSETS NONE) 0)
  /\ Scene3D.seenPlayerGesture (scene firstTextureWorld) <> ROCK
  /\ Scene3D.seenBotGesture (scene firstTextureWorld) = NONE
  /\ ROCK <> NONE.
Proof.
  split; [reflexivity|]. split; [reflexivity|].
  split; [discriminate|]. split; [reflexivity|].
  exact (proj1 (late_texture_overrides_current (scene firstTextureWorld)
                  ROCK NONE NONE false
                  (Scene3D.Loaded (Scene3D.ASSETS NONE) 0)
                  eq_refl eq_refl
                  (fun H : NONE = ROCK =>
                     eq_ind NONE
                       (fun g => match g with NONE => True | _ => False end)
                       I ROCK H)
                  eq_refl)).
Defined.
